(** * A3C actor-learner worker: a shallow embedding of
    [actor_learner_thread.py] and of the parts of [main.py] around it (the
    constructor call, the except clause of the join loop, the loop
    listener).

    Numbers handled by numpy at run time (rewards, returns, gradient
    elements) are rationals [Q]; Python integers are [Z]; the loss graph,
    which takes logarithms, is over the reals [R] (module [Loss]).
    The environment, the random generator, the network and the optimizer
    are external collaborators and enter as parameters of the section
    [ActorLearner]. *)

From Stdlib Require Import ZArith QArith Qminmax List Bool Lia Lqa.
From Stdlib Require Import Permutation.
From Stdlib Require String.
From Stdlib Require Import Reals Lra.
Import ListNotations.

Local Open Scope Z_scope.

(** ** Constants fixed by [ActorLearnerThread.__init__] *)

Definition t_max : Z := 10.          (* self.t_max = 10 *)
Definition skip_num : nat := 4.      (* self.skip_num = 4 *)
Definition gamma : Q := 99 # 100.    (* self.gamma = 0.99 *)
Definition grad_clip : Q := 40 # 1.  (* self.grad_clip = 40 *)

(** ** Tensors and numpy helpers *)

Definition action := nat.
Definition Tensor := list Q.

(* np.clip([x], lo, hi)[0]  =  minimum(maximum(x, lo), hi) *)
Definition np_clip (x lo hi : Q) : Q := Qmin (Qmax x lo) hi.

(* tf.clip_by_value(t, lo, hi): element-wise
   maximum(minimum(t, hi), lo) *)
Definition clip_by_value (g : Tensor) (lo hi : Q) : Tensor :=
  map (fun x => Qmax (Qmin x hi) lo) g.

(* tf.zeros(shape) for a flattened tensor of [n] elements *)
Definition zeros (n : nat) : Tensor := repeat (0 # 1)%Q n.

(* element-wise sum of two tensors (tf.assign_add) *)
Fixpoint tensor_add (a b : Tensor) : Tensor :=
  match a, b with
  | x :: a', y :: b' => (x + y)%Q :: tensor_add a' b'
  | _, _ => []
  end.

Inductive exn := IndexError | TypeError | ValueError.

(* action = np.zeros(n); action[a] = 1   (None: IndexError) *)
Definition one_hot_of {A : Type} (zero one : A) (n : nat) (a : action)
  : option (list A) :=
  if (a <? n)%nat
  then Some (repeat zero a ++ one :: repeat zero (n - S a))
  else None.

Definition one_hot : nat -> action -> option (list Q) :=
  one_hot_of (0 # 1)%Q (1 # 1)%Q.

(* Python list indexing l[i], negative indices counting from the end *)
Definition py_getitem {A : Type} (l : list A) (i : Z) : option A :=
  let n := Z.of_nat (length l) in
  if (0 <=? i) && (i <? n) then nth_error l (Z.to_nat i)
  else if (i <? 0) && (0 <=? n + i) then nth_error l (Z.to_nat (n + i))
  else None.

(* a is b  for two integers of which [a] is computed at run time (the result
   of len): CPython keeps one object for every integer from -5 to 256, so
   the two are the same object exactly when they are equal and in that
   range *)
Definition py_is (a b : nat) : bool := (a =? b)%nat && (b <=? 256)%nat.

(* range(start, -1, -1) *)
Definition range_down (start : Z) : list Z :=
  map (fun k => start - Z.of_nat k) (seq 0 (Z.to_nat (start + 1))).

(** ** The attributes of one worker object *)

Inductive pyval := PyInt (z : Z) | PyStr (s : String.string).

(* the default of __init__'s device argument *)
Module Device.
Import String.
Local Open Scope string_scope.
Definition default : pyval := PyStr "/cpu:0".
End Device.

Record Thread := mkThread {
  t : Z;                         (* self.t *)
  t_start : Z;                   (* self.t_start *)
  stop : bool;                   (* self.stop *)
  thread_id : Z;                 (* the thread_id argument of __init__ *)
  device : pyval;                (* self.device *)
  kill_received : option bool;   (* attribute set from outside; absent = None *)
  local_weights : list Tensor;   (* self.local_network.weights_and_biases() *)
  local_grads : list Tensor      (* self.local_grads *)
}.

Definition set_t (v : Z) (s : Thread) : Thread :=
  mkThread v (t_start s) (stop s) (thread_id s) (device s) (kill_received s)
           (local_weights s) (local_grads s).
Definition set_t_start (v : Z) (s : Thread) : Thread :=
  mkThread (t s) v (stop s) (thread_id s) (device s) (kill_received s)
           (local_weights s) (local_grads s).
Definition set_stop (v : bool) (s : Thread) : Thread :=
  mkThread (t s) (t_start s) v (thread_id s) (device s) (kill_received s)
           (local_weights s) (local_grads s).
Definition set_kill_received (v : bool) (s : Thread) : Thread :=
  mkThread (t s) (t_start s) (stop s) (thread_id s) (device s) (Some v)
           (local_weights s) (local_grads s).
Definition set_local_weights (v : list Tensor) (s : Thread) : Thread :=
  mkThread (t s) (t_start s) (stop s) (thread_id s) (device s) (kill_received s)
           v (local_grads s).
Definition set_local_grads (v : list Tensor) (s : Thread) : Thread :=
  mkThread (t s) (t_start s) (stop s) (thread_id s) (device s) (kill_received s)
           (local_weights s) v.

(* ActorLearnerThread.__init__(session, environment, shared_network,
     local_network, thread_id, device='/cpu:0')
   The local gradient variables are created as zeros of the shapes of the
   local network's variables (prepare_local_gradients). *)
Definition init (local_network : list Tensor) (thread_id : Z) (device : pyval)
  : Thread :=
  mkThread 1 1 false thread_id device None local_network
           (map (fun var => zeros (length var)) local_network).

(* main.py, lines 116-117:
     actor_thread.ActorLearnerThread(session, environment, shared_network,
         networks[thread_num], FLAGS.global_t_max, thread_num)
   The fifth positional argument is received as thread_id and the sixth as
   device. *)
Definition main_construct (network : list Tensor) (global_t_max : Z)
  (thread_num : Z) : Thread :=
  init network global_t_max (PyInt thread_num).

(* the guard of the outer loop of run:
     tf.train.global_step(session, shared_counter) < self.t_max
       and self.stop == False *)
Definition run_guard (global_step : Z) (s : Thread) : bool :=
  (global_step <? t_max) && Bool.eqb (stop s) false.

(* signal_handler(self, signal, frame): self.stop = True *)
Definition signal_handler (s : Thread) : Thread := set_stop true s.

(** ** The worker against its collaborators *)

(* Environment adapter (ale_environment), random generator (np.random),
   network model (a3c_network), autodiff engine and optimizer (tensorflow,
   shared_network): external, taken as an interface. *)
Class Collaborators := {
  Screen : Type;
  Env : Type;
  Rng : Type;
  Opt : Type;
  env_reset : Env -> Env;
  env_act : action -> Env -> Q * Screen * Env;
  env_is_end_state : Env -> bool;
  env_available_actions : Env -> list action;
  (* np.random.choice(actions) and np.random.choice(actions, p=probs) *)
  random_choice : list action -> Rng -> action * Rng;
  random_choice_p : list action -> list Q -> Rng -> action * Rng;
  (* policy and value heads of a network with the given weights *)
  net_pi : list Tensor -> list Screen -> list Q;
  net_value : list Tensor -> list Screen -> Q;
  actor_outputs : nat;   (* local_network.actor_outputs *)
  num_channels : nat;    (* local_network.input_shape()[2] *)
  (* gradient of the loss of one batch row with respect to the local
     weights; total_loss is a sum over the rows of the batch *)
  row_gradients :
    list Tensor -> list Screen -> list Q -> list Q -> list Tensor;
  (* one optimizer step on the shared weights *)
  optimizer_step : list Tensor -> list Tensor * Opt -> list Tensor * Opt
}.

Section ActorLearner.

Context {C : Collaborators}.

Definition State := list Screen.   (* frames stacked along the last axis *)

Record Shared := mkShared {
  shared_weights : list Tensor;    (* shared_network.weights_and_biases() *)
  opt_state : Opt;                 (* shared_network.optimizer *)
  shared_counter : Z               (* shared_network.shared_counter *)
}.

(* one entry of history: {'state':..., 'action':..., 'reward':...} *)
Record Snapshot := mkSnapshot {
  h_state : State;
  h_action : action;
  h_reward : Q
}.

(* calls observed on the collaborators, in program order *)
Inductive event :=
| EvResetGradients
| EvSync
| EvGetInitialState
| EvAct (a : action)
| EvEnvReset
| EvPlayGame
| EvAccumulate (states : list State) (actions rewards : list (list Q))
| EvApply (clipped : list Tensor).

Record World := mkWorld {
  self : Thread;
  shared_network : Shared;
  environment : Env;
  rng : Rng;
  trace : list event
}.

Definition set_self (f : Thread -> Thread) (w : World) : World :=
  mkWorld (f (self w)) (shared_network w) (environment w) (rng w) (trace w).
Definition set_shared (s : Shared) (w : World) : World :=
  mkWorld (self w) s (environment w) (rng w) (trace w).
Definition set_environment (e : Env) (w : World) : World :=
  mkWorld (self w) (shared_network w) e (rng w) (trace w).
Definition set_rng (g : Rng) (w : World) : World :=
  mkWorld (self w) (shared_network w) (environment w) g (trace w).
Definition log (ev : event) (w : World) : World :=
  mkWorld (self w) (shared_network w) (environment w) (rng w)
          (trace w ++ [ev]).

(** A state monad with exceptions and fuel for the [while] loops. *)
Inductive result (A : Type) :=
| Ok (a : A) (w : World)
| Raise (e : exn)
| OutOfFuel.
Arguments Ok {A} a w.
Arguments Raise {A} e.
Arguments OutOfFuel {A}.

Definition M (A : Type) := World -> result A.
Definition ret {A} (a : A) : M A := fun w => Ok a w.
Definition bind {A B} (c : M A) (k : A -> M B) : M B :=
  fun w => match c w with
           | Ok a w' => k a w'
           | Raise e => Raise e
           | OutOfFuel => OutOfFuel
           end.
Definition raise {A} (e : exn) : M A := fun _ => Raise e.
Definition get : M World := fun w => Ok w w.
Definition modify (f : World -> World) : M unit := fun w => Ok tt (f w).
Definition lift_option {A} (e : exn) (o : option A) : M A :=
  match o with Some a => ret a | None => raise e end.

Local Notation "x <- c ;; k" := (bind c (fun x => k))
  (at level 61, c at next level, right associativity).
Local Notation "' p <- c ;; k" :=
  (bind c (fun x => match x with p => k end))
  (at level 61, p pattern, c at next level, right associativity).
Local Notation "c ;; k" := (bind c (fun _ => k))
  (at level 61, right associativity).

(** *** Collaborator calls *)

(* self.environment.act(action) -> (reward, next_screen) *)
Definition act (a : action) : M (Q * Screen) := fun w =>
  let '(r, scr, e') := env_act a (environment w) in
  Ok (r, scr) (log (EvAct a) (set_environment e' w)).

(* self.environment.reset() *)
Definition environment_reset : M unit :=
  modify (fun w => log EvEnvReset
                     (set_environment (env_reset (environment w)) w)).

Definition is_end_state : M bool :=
  fun w => Ok (env_is_end_state (environment w)) w.

Definition available_actions : M (list action) :=
  fun w => Ok (env_available_actions (environment w)) w.

(* select_random_action_from: np.random.choice(available_actions) *)
Definition select_random_action_from (av : list action) : M action :=
  fun w => let '(a, g) := random_choice av (rng w) in Ok a (set_rng g w).

(* select_action_with: np.random.choice(available_actions, p=probabilities) *)
Definition select_action_with (av : list action) (p : list Q) : M action :=
  fun w => let '(a, g) := random_choice_p av p (rng w) in Ok a (set_rng g w).

(* session.run(self.pi, feed_dict={self.state_input : [state]})[0] *)
Definition run_pi (s : State) : M (list Q) :=
  fun w => Ok (net_pi (local_weights (self w)) s) w.

(* session.run(self.value, feed_dict={self.state_input : [s]})[0][0] *)
Definition run_value (s : State) : M Q :=
  fun w => Ok (net_value (local_weights (self w)) s) w.

(** *** Gradient accumulator and shared store *)

(* reset_gradients: every local gradient is assigned zeros of the shape of
   the corresponding local variable (zip of variables and gradients) *)
Definition reset_gradients : M unit :=
  modify (fun w =>
    log EvResetGradients
      (set_self (fun s =>
         set_local_grads
           (map (fun vg => zeros (length (fst vg)))
                (combine (local_weights s) (local_grads s))) s) w)).

(* sync_network_parameters(shared_network, local_network):
   target.assign(origin) over zip(origin variables, target variables) *)
Definition sync_network_parameters : M unit :=
  modify (fun w =>
    log EvSync
      (set_self (fun s =>
         set_local_weights
           (map fst (combine (shared_weights (shared_network w))
                             (local_weights s))) s) w)).

(* the gradients of total_loss for a batch: the sum over the rows *)
Fixpoint accum_rows (ws : list Tensor) (grads : list Tensor)
  (states : list State) (actions rewards : list (list Q)) : list Tensor :=
  match states, actions, rewards with
  | s :: states', a :: actions', r :: rewards' =>
      accum_rows ws
        (map (fun gl => tensor_add (snd gl) (fst gl))
             (combine (row_gradients ws s a r) grads))
        states' actions' rewards'
  | _, _, _ => grads
  end.

(* accumulate_gradients(state, action, r):
     session.run(self.accum_local_grads_ops, feed_dict={...})
   An empty list fed to a placeholder of shape [None, ...] is an array of
   shape (0,), which session.run refuses with a ValueError before any
   operation runs; otherwise tf.assign_add(local_grad, grad) for every
   variable. *)
Definition accumulate_gradients (states : list State)
  (actions rewards : list (list Q)) : M unit :=
  match states, actions, rewards with
  | _ :: _, _ :: _, _ :: _ =>
      modify (fun w =>
        log (EvAccumulate states actions rewards)
          (set_self (fun s =>
             set_local_grads
               (accum_rows (local_weights s) (local_grads s)
                           states actions rewards) s) w))
  | _, _, _ => raise ValueError
  end.

(* prepare_apply_gradients: the gradients handed to the optimizer *)
Definition clipped_grads (grads : list Tensor) : list Tensor :=
  map (fun grad => clip_by_value grad (- grad_clip) grad_clip) grads.

(* optimizer.apply_gradients(zip(clipped, shared variables),
     global_step=shared_counter): one optimizer step, counter + 1 *)
Definition apply_gradients (grads : list Tensor) (sh : Shared) : Shared :=
  let '(ws, o) := optimizer_step grads (shared_weights sh, opt_state sh) in
  mkShared ws o (shared_counter sh + 1).

(* update_shared_gradients: session.run(self.apply_grads) *)
Definition update_shared_gradients : M unit :=
  modify (fun w =>
    let g := clipped_grads (local_grads (self w)) in
    log (EvApply g) (set_shared (apply_gradients g (shared_network w)) w)).

(** *** get_initial_state *)

(* for i in range(n):
     action = self.select_random_action_from(available_actions)
     reward, next_screen = self.environment.act(action) *)
Fixpoint random_acts (n : nat) (av : list action)
  (next_screen : option Screen) : M (option Screen) :=
  match n with
  | O => ret next_screen
  | S n' =>
      a <- select_random_action_from av ;;
      ' (_, scr) <- act a ;;
      random_acts n' av (Some scr)
  end.

(* the [while True] loop; a next_screen still None (possible only for
   skip_num = 0) is reported as a TypeError where it is appended.  The exit
   test is [len(initial_state) is self.num_channels], an identity test. *)
Fixpoint get_initial_state_loop (fuel : nat) (av : list action)
  (initial_state : list Screen) : M (list Screen) :=
  match fuel with
  | O => fun _ => OutOfFuel
  | S fuel' =>
      next_screen <- random_acts skip_num av None ;;
      scr <- lift_option TypeError next_screen ;;
      let initial_state' := initial_state ++ [scr] in
      if py_is (length initial_state') num_channels
      then ret initial_state'
      else get_initial_state_loop fuel' av initial_state'
  end.

Definition get_initial_state (fuel : nat) : M (list Screen) :=
  modify (log EvGetInitialState) ;;
  av <- available_actions ;;
  get_initial_state_loop fuel av [].

(** *** play_game *)

(* for i in range(n):
     intermediate_reward, next_screen = self.environment.act(action)
     reward += np.clip([intermediate_reward], -1, 1)[0] *)
Fixpoint act_repeat (n : nat) (a : action) (reward : Q)
  (next_screen : option Screen) : M (Q * option Screen) :=
  match n with
  | O => ret (reward, next_screen)
  | S n' =>
      ' (intermediate_reward, scr) <- act a ;;
      act_repeat n' a
        (reward + np_clip intermediate_reward (- (1 # 1)) (1 # 1))%Q
        (Some scr)
  end.

(* the [while] loop of play_game; [reward] is the local variable
   initialised to 0 before the loop and carried across iterations *)
Fixpoint play_game_loop (fuel : nat) (av : list action)
  (history : list Snapshot) (next_state : State) (reward : Q)
  : M (list Snapshot * State * Q) :=
  match fuel with
  | O => fun _ => OutOfFuel
  | S fuel' =>
      e <- is_end_state ;;
      w <- get ;;
      if Bool.eqb e false
         && negb (t (self w) - t_start (self w) =? t_max)
      then
        let state := next_state in
        probabilities <- run_pi state ;;
        a <- select_action_with av probabilities ;;
        (* reward += 0.0 *)
        let reward0 := (reward + (0 # 1))%Q in
        ' (reward', next_screen) <- act_repeat skip_num a reward0 None ;;
        let history' := history ++ [mkSnapshot state a reward'] in
        scr <- lift_option TypeError next_screen ;;
        (* np.append(state[:, :, 1:], next_screen, axis=-1) *)
        let next_state' := tl state ++ [scr] in
        modify (set_self (fun s => set_t (t s + 1) s)) ;;
        play_game_loop fuel' av history' next_state' reward'
      else ret (history, next_state, reward)
  end.

Definition play_game (fuel : nat) (initial_state : list Screen)
  : M (list Snapshot * option State) :=
  modify (log EvPlayGame) ;;
  av <- available_actions ;;
  ' (history, next_state, _) <-
    play_game_loop fuel av [] initial_state (0 # 1)%Q ;;
  e <- is_end_state ;;
  ret (history, if e then None else Some next_state).

(** *** run *)

Definition extract_history (h : Snapshot) : option (State * list Q * Q) :=
  match one_hot actor_outputs (h_action h) with
  | Some a => Some (h_state h, a, h_reward h)
  | None => None
  end.

Definition Batches : Type := list State * list (list Q) * list (list Q).

(* for i in <indices>:
     snapshot = history[i]
     state, action, reward = self.extract_history(snapshot)
     r = reward + self.gamma * r
     states_batch.append(state); action_batch.append(action)
     reward_batch.append([r])
   None stands for an IndexError. *)
Fixpoint returns_loop (history : list Snapshot) (indices : list Z) (r : Q)
  (b : Batches) : option Batches :=
  match indices with
  | [] => Some b
  | i :: indices' =>
      match py_getitem history i with
      | None => None
      | Some snapshot =>
          match extract_history snapshot with
          | None => None
          | Some (state, a, reward) =>
              let r' := (reward + gamma * r)%Q in
              let '(states_batch, action_batch, reward_batch) := b in
              returns_loop history indices' r'
                (states_batch ++ [state], action_batch ++ [a],
                 reward_batch ++ [[r']])
          end
      end
  end.

(* the bootstrap value chosen after play_game *)
Definition bootstrap (last_state : option State) : M Q :=
  match last_state with
  | None => ret (0 # 1)%Q
  | Some s => run_value s
  end.

(* lines 149-164 of run: the bootstrap value and the backward pass over
   the history *)
Definition return_computation (history : list Snapshot)
  (last_state : option State) : M Batches :=
  r <- bootstrap last_state ;;
  w <- get ;;
  lift_option IndexError
    (returns_loop history
       (range_down ((t (self w) - 1) - t_start (self w))) r
       ([], [], [])).

(* the body of the [while] loop of run *)
Definition run_iteration (fuel : nat) : M unit :=
  reset_gradients ;;
  sync_network_parameters ;;
  modify (set_self (fun s => set_t_start (t s) s)) ;;
  initial_state <- get_initial_state fuel ;;
  environment_reset ;;
  ' (history, last_state) <- play_game fuel initial_state ;;
  ' (states_batch, action_batch, reward_batch) <-
    return_computation history last_state ;;
  accumulate_gradients states_batch action_batch reward_batch ;;
  update_shared_gradients.

(* run: the outer [while] loop, for at most [iterations] iterations.  The
   available_actions read at the top of run are not used by it.  One worker
   runs alone: applies of other workers between two of its steps are not
   part of this model. *)
Fixpoint run (iterations fuel : nat) : M unit :=
  match iterations with
  | O => fun _ => OutOfFuel
  | S iterations' =>
      w <- get ;;
      if run_guard (shared_counter (shared_network w)) (self w)
      then run_iteration fuel ;; run iterations' fuel
      else ret tt
  end.

End ActorLearner.

Arguments Ok {C A} a w.
Arguments Raise {C A} e.
Arguments OutOfFuel {C A}.

(** ** The loss graph built by [prepare_loss_operations] *)

Module Loss.

Local Open Scope R_scope.

Definition eps : R := / 10 ^ 10.    (* self.eps = 1e-10 *)
Definition beta : R := 1 / 100.     (* self.beta = 0.01 *)

(* A tensor of shape [batch, actions] is a list of rows; a tensor of shape
   [batch, 1] is the list of its single column. *)
Definition Mat := list (list R).
Definition Col := list R.

(* tf.log on one element.  The logarithm is finite on positive arguments
   only: log 0 is -inf and the log of a negative number is NaN.  A
   non-finite value is None; it stays non-finite through the products,
   sums and negations that follow. *)
Definition tf_log (x : R) : option R :=
  if Rlt_dec 0 x then Some (ln x) else None.

Fixpoint log_col (l : list R) : option (list R) :=
  match l with
  | [] => Some []
  | x :: l' =>
      match tf_log x, log_col l' with
      | Some y, Some ys => Some (y :: ys)
      | _, _ => None
      end
  end.

Fixpoint log_mat (m : Mat) : option Mat :=
  match m with
  | [] => Some []
  | row :: m' =>
      match log_col row, log_mat m' with
      | Some r, Some rs => Some (r :: rs)
      | _, _ => None
      end
  end.

(* tf.reduce_sum over all elements of a column *)
Definition reduce_sum (l : list R) : R := fold_right Rplus 0 l.

(* element-wise product and difference *)
Fixpoint mul (a b : list R) : list R :=
  match a, b with
  | x :: a', y :: b' => x * y :: mul a' b'
  | _, _ => []
  end.

Fixpoint sub (a b : list R) : list R :=
  match a, b with
  | x :: a', y :: b' => x - y :: sub a' b'
  | _, _ => []
  end.

(* tf.reduce_sum(tf.mul(a, b), reduction_indices=1, keep_dims=True) *)
Fixpoint mul_sum_rows (a b : Mat) : Col :=
  match a, b with
  | ra :: a', rb :: b' => reduce_sum (mul ra rb) :: mul_sum_rows a' b'
  | _, _ => []
  end.

(* log_pi = tf.log(self.pi + self.eps) *)
Definition log_pi (self_pi : Mat) : option Mat :=
  log_mat (map (map (fun p => p + eps)) self_pi).

(* pi_a_s = tf.reduce_sum(tf.mul(pi, self.action_input), ...) *)
Definition pi_a_s (pi action_input : Mat) : Col :=
  mul_sum_rows pi action_input.

(* log_pi_a_s = tf.log(pi_a_s) *)
Definition log_pi_a_s (pi action_input : Mat) : option Col :=
  log_col (pi_a_s pi action_input).

(* prepare_loss_operations.  [self_pi] is self.pi, [pi] and [value] are the
   outputs of local_network.pi_and_value(self.state_input); the result is
   (policy_loss, value_loss). *)
Definition prepare_loss_operations (self_pi pi : Mat) (value : Col)
  (action_input : Mat) (reward_input : Col) : option (R * R) :=
  match log_pi self_pi with
  | None => None
  | Some log_pi =>
      let entropy := mul_sum_rows pi log_pi in
      match log_pi_a_s pi action_input with
      | None => None
      | Some log_pi_a_s =>
          let advantage := sub reward_input value in
          let policy_loss :=
            - reduce_sum (mul log_pi_a_s advantage)
            + reduce_sum (map (fun e => e * beta) entropy) in
          let value_loss :=
            reduce_sum (map (fun a => a * a) advantage) in
          Some (policy_loss, value_loss)
      end
  end.

(* total_loss = self.policy_loss + self.value_loss * 0.5 *)
Definition total_loss (self_pi pi : Mat) (value : Col)
  (action_input : Mat) (reward_input : Col) : option R :=
  match prepare_loss_operations self_pi pi value action_input reward_input
  with
  | Some (policy_loss, value_loss) => Some (policy_loss + value_loss * (1 / 2))
  | None => None
  end.

(** One row of a batch: the policy output, the value output, the action
    taken and the return fed for it. *)
Record Row := mkRow {
  probs : list R;
  v : R;
  a : action;
  ret : R
}.

(* the one-hot row fed as action_input (extract_history) *)
Definition action_row (n : nat) (r : Row) : list R :=
  match one_hot_of 0 1 n (a r) with Some l => l | None => [] end.

(* the loss fed with a batch of rows; self.pi and the pi of pi_and_value are
   outputs of the same network on the same input *)
Definition loss_of_rows (n : nat) (rows : list Row) : option R :=
  total_loss (map probs rows) (map probs rows) (map v rows)
             (map (action_row n) rows) (map ret rows).

(* pi(a|s) of a row *)
Definition prob_of (r : Row) : R := nth (a r) (probs r) 0.

(** The loss as the specification words it: the beta term is beta times
    the entropy  - sum_a pi(a|s) log pi(a|s). *)
Definition spec_entropy (p : list R) : R :=
  - reduce_sum (map (fun x => x * ln x) p).

Definition spec_total_loss (rows : list Row) : R :=
  (- reduce_sum (map (fun r => ln (prob_of r) * (ret r - v r)) rows)
   + beta * reduce_sum (map (fun r => spec_entropy (probs r)) rows))
  + (1 / 2) * reduce_sum (map (fun r => (ret r - v r) * (ret r - v r)) rows).

(** The loss that the graph computes: the beta term is beta times
    sum_a pi(a|s) log(pi(a|s) + eps). *)
Definition graph_total_loss (rows : list Row) : R :=
  (- reduce_sum (map (fun r => ln (prob_of r) * (ret r - v r)) rows)
   + beta * reduce_sum
       (map (fun r => reduce_sum (map (fun x => x * ln (x + eps)) (probs r)))
            rows))
  + (1 / 2) * reduce_sum (map (fun r => (ret r - v r) * (ret r - v r)) rows).

(* two concrete rows for four actions: the uniform policy, and a policy
   that gives probability 0 to the action taken *)
Definition uniform_row : Row := mkRow [1 / 4; 1 / 4; 1 / 4; 1 / 4] 0 0%nat 0.
Definition zero_prob_row : Row := mkRow [0; 1; 0; 0] 0 0%nat 0.

End Loss.

(** ** The constructor with its checks *)

(* what __init__ reads from local_network *)
Record Network := mkNetwork {
  input_shape : list nat;            (* local_network.input_shape() *)
  actor_output_shape : list nat;     (* local_network.actor_output_shape() *)
  critic_output_shape : list nat;    (* local_network.critic_output_shape() *)
  weights_and_biases : list Tensor   (* local_network.weights_and_biases() *)
}.

Inductive init_error := InitIndexError | InitValueError | InitAssertionError.

(* ActorLearnerThread(session, environment, shared_network, local_network,
     thread_id), the device left at its default, with the checks made on the
   way, in program order:
     self.num_channels = local_network.input_shape()[2]      (IndexError)
     self.saver = tf.train.Saver({var.name: var for var in ...})
                                  (ValueError when there is no variable)
     assert state_shape == [None, width, height, num_channels]
     assert action_shape == [None, 4]
     assert reward_shape == [None, 1]
     assert len(local_grads) == 10
   (the later assertions on the reset and accumulation operations compare
   the same count).  Shapes are lists of dimensions. *)
Definition init_checked (net : Network) (thread_id : Z)
  : init_error + Thread :=
  if (length (input_shape net) <? 3)%nat then inl InitIndexError
  else if (length (weights_and_biases net) =? 0)%nat then inl InitValueError
  else if negb (length (input_shape net) =? 3)%nat
  then inl InitAssertionError
  else if negb (if list_eq_dec Nat.eq_dec (actor_output_shape net) [4%nat]
                then true else false) then inl InitAssertionError
  else if negb (if list_eq_dec Nat.eq_dec (critic_output_shape net) [1%nat]
                then true else false) then inl InitAssertionError
  else if negb (length (weights_and_biases net) =? 10)%nat
  then inl InitAssertionError
  else inr (init (weights_and_biases net) thread_id Device.default).

(** ** Workers in one process and the interrupt *)

(* Every __init__ installs its signal_handler for SIGINT; the except clause
   is the one of the join loop of main.py.  The construction loop of main.py
   itself passes thread_num as the device and calls
   thread.set_loop_listener, which the class does not define; the workers
   here are built by calls of the constructor with the device left at its
   default. *)
Module Coordinator.

(* The worker objects in construction order, and the handler installed for
   SIGINT: [Some i] when signal.signal(SIGINT, threads[i].signal_handler)
   was the last registration, [None] for Python's default handler, which
   raises KeyboardInterrupt in the main thread. *)
Record Process := mkProcess {
  threads : list Thread;
  sigint : option nat
}.

(* before any worker is constructed *)
Definition start : Process := mkProcess [] None.

(* for each (local_network, thread_id):
     thread = ActorLearnerThread(session, environment, shared_network,
                                 local_network, thread_id)
     threads.append(thread)
   An exception of a constructor ends the construction.  __init__ ends with
   signal.signal(signal.SIGINT, self.signal_handler). *)
Fixpoint build (workers : list (Network * Z)) (p : Process)
  : init_error + Process :=
  match workers with
  | [] => inr p
  | (net, thread_id) :: rest =>
      match init_checked net thread_id with
      | inl e => inl e
      | inr s =>
          build rest
            (mkProcess (threads p ++ [s]) (Some (length (threads p))))
      end
  end.

(* except KeyboardInterrupt:
     for thread in threads: thread.kill_received = True *)
Definition keyboard_interrupt (p : Process) : Process :=
  mkProcess (map (set_kill_received true) (threads p)) (sigint p).

Fixpoint update_nth {A : Type} (i : nat) (f : A -> A) (l : list A)
  : list A :=
  match l, i with
  | [], _ => []
  | x :: l', O => f x :: l'
  | x :: l', S i' => x :: update_nth i' f l'
  end.

(* a SIGINT reaches the process: the installed handler runs, or, with the
   default handler, the join loop's except clause *)
Definition deliver_sigint (p : Process) : Process :=
  match sigint p with
  | Some i => mkProcess (update_nth i signal_handler (threads p)) (sigint p)
  | None => keyboard_interrupt p
  end.

(* the workers whose outer-loop guard still lets an iteration start at the
   given global step *)
Definition still_running (global_step : Z) (p : Process) : list bool :=
  map (run_guard global_step) (threads p).

End Coordinator.

(** ** Concrete collaborators used to evaluate the model *)

Module Toy.

(* An environment that counts the actions since the last reset, pays the
   raw reward 3 for every action, shows the counter as its frame and is in
   an end state once [limit] actions were made ([None]: never). *)
Definition is_end (limit : option nat) (e : nat) : bool :=
  match limit with
  | Some k => (k <=? e)%nat
  | None => false
  end.

Definition ones_like (ws : list Tensor) : list Tensor :=
  map (map (fun _ => (1 # 1)%Q)) ws.

Definition collaborators (limit : option nat) : Collaborators := {|
  Screen := nat;
  Env := nat;
  Rng := unit;
  Opt := unit;
  env_reset := fun _ => O;
  env_act := fun _ e => ((3 # 1)%Q, S e, S e);
  env_is_end_state := is_end limit;
  env_available_actions := fun _ => [0; 1; 2; 3]%nat;
  random_choice := fun av g => (hd O av, g);
  random_choice_p := fun av _ g => (nth 1 av O, g);
  net_pi := fun _ _ => [1 # 4; 1 # 4; 1 # 4; 1 # 4]%Q;
  net_value := fun _ _ => (7 # 1)%Q;
  actor_outputs := 4;
  num_channels := 2;
  row_gradients := fun ws _ _ _ => ones_like ws;
  optimizer_step := fun grads wo =>
    (map (fun wg => tensor_add (fst wg) (snd wg)) (combine (fst wo) grads),
     snd wo)
|}.

Definition world (limit : option nat) : @World (collaborators limit) :=
  @mkWorld (collaborators limit)
    (init [[0 # 1; 0 # 1]; [0 # 1]]%Q 0 Device.default)
    (@mkShared (collaborators limit) [[1 # 1; 2 # 1]; [5 # 1]]%Q tt 0)
    O tt [].

(* the environment that is in an end state at once, and the one that ends
   after 8 actions *)
Definition end_at_once : Collaborators := collaborators (Some 0%nat).
Definition end_after_8 : Collaborators := collaborators (Some 8%nat).

(* the rollout of the world that ends after 8 actions, evaluated *)
Definition history8 : list (@Snapshot end_after_8) :=
  Eval vm_compute in
    match play_game (C := end_after_8) 20 [0; 0]%nat (world (Some 8%nat)) with
    | Ok (history, _) _ => history
    | _ => []
    end.

Definition last_state8 : option (@State end_after_8) :=
  Eval vm_compute in
    match play_game (C := end_after_8) 20 [0; 0]%nat (world (Some 8%nat)) with
    | Ok (_, last_state) _ => last_state
    | _ => None
    end.

Definition world8 : @World end_after_8 :=
  Eval vm_compute in
    match play_game (C := end_after_8) 20 [0; 0]%nat (world (Some 8%nat)) with
    | Ok _ w => w
    | _ => world (Some 8%nat)
    end.

(* the world after one iteration of the world that ends after 8 actions *)
Definition after_iteration8 : @World end_after_8 :=
  Eval vm_compute in
    match run_iteration (C := end_after_8) 20 (world (Some 8%nat)) with
    | Ok _ w => w
    | _ => world (Some 8%nat)
    end.

(* the toy collaborators with a network input of no channels *)
Definition no_channels : Collaborators := {|
  Screen := nat;
  Env := nat;
  Rng := unit;
  Opt := unit;
  env_reset := fun _ => O;
  env_act := fun _ e => ((3 # 1)%Q, S e, S e);
  env_is_end_state := is_end None;
  env_available_actions := fun _ => [0; 1; 2; 3]%nat;
  random_choice := fun av g => (hd O av, g);
  random_choice_p := fun av _ g => (nth 1 av O, g);
  net_pi := fun _ _ => [1 # 4; 1 # 4; 1 # 4; 1 # 4]%Q;
  net_value := fun _ _ => (7 # 1)%Q;
  actor_outputs := 4;
  num_channels := 0;
  row_gradients := fun ws _ _ _ => ones_like ws;
  optimizer_step := fun grads wo =>
    (map (fun wg => tensor_add (fst wg) (snd wg)) (combine (fst wo) grads),
     snd wo)
|}.

(* the toy environment that never ends *)
Definition never_ends : Collaborators := collaborators None.

(* a world whose local counter is 20 steps ahead of t_start *)
Definition world_beyond_horizon : @World never_ends :=
  set_self (set_t 21) (world None).

(* a history of one record whose action the toy network has no output for,
   and a world whose local counter is one step after t_start *)
Definition history_unknown_action : list (@Snapshot end_after_8) :=
  [@mkSnapshot end_after_8 [0; 0]%nat 7%nat (1 # 1)%Q].

Definition world_after_one_step : @World end_after_8 :=
  set_self (set_t 2) (world (Some 8%nat)).

(* the rollout of the world that never ends, evaluated *)
Definition history10 : list (@Snapshot never_ends) :=
  Eval vm_compute in
    match play_game (C := never_ends) 20 [0; 0]%nat (world None) with
    | Ok (history, _) _ => history
    | _ => []
    end.

Definition last_state10 : option (@State never_ends) :=
  Eval vm_compute in
    match play_game (C := never_ends) 20 [0; 0]%nat (world None) with
    | Ok (_, last_state) _ => last_state
    | _ => None
    end.

Definition world10 : @World never_ends :=
  Eval vm_compute in
    match play_game (C := never_ends) 20 [0; 0]%nat (world None) with
    | Ok _ w => w
    | _ => world None
    end.

(* a network that the constructor accepts: an input of three dimensions,
   four actions, one value, ten variables *)
Definition network : Network :=
  mkNetwork [84; 84; 4]%nat [4%nat] [1%nat] (repeat [0 # 1; 0 # 1]%Q 10).

(* the worker that the constructor makes of it *)
Definition worker (thread_id : Z) : Thread :=
  init (weights_and_biases network) thread_id Device.default.

(* the rewards recorded by a rollout *)
Definition rewards_of {C : Collaborators}
  (r : result (list Snapshot * option State)) : list Q :=
  match r with
  | Ok (history, _) _ => map h_reward history
  | _ => []
  end.

End Toy.

(** ** Vocabulary of the statements *)

(* The discounted returns of a reward sequence, in time order, seeded with
   r0 after the last step:  R_i = r_i + gamma * R_{i+1},  R_{n+1} = r0. *)
Fixpoint discounted (rewards : list Q) (r0 : Q) : list Q :=
  match rewards with
  | [] => []
  | r :: rest =>
      let tail := discounted rest r0 in
      (r + gamma * hd r0 tail)%Q :: tail
  end.

(* the returns in the order in which the backward pass produces them *)
Fixpoint running (rewards : list Q) (r : Q) : list Q :=
  match rewards with
  | [] => []
  | x :: rest => let r' := (x + gamma * r)%Q in r' :: running rest r'
  end.

(* the one-hot vector that extract_history builds for a record *)
Definition action_vector {C : Collaborators} (h : Snapshot) : list Q :=
  match one_hot actor_outputs (h_action h) with
  | Some a => a
  | None => []
  end.

(* the world left by a command that cannot fail *)
Definition exec {C : Collaborators} (c : M unit) (w : World) : World :=
  match c w with
  | Ok _ w' => w'
  | _ => w
  end.

(* the world in which the warm-up of an iteration starts *)
Definition before_warmup {C : Collaborators} (w : World) : World :=
  exec (bind reset_gradients (fun _ =>
        bind sync_network_parameters (fun _ =>
        modify (set_self (fun s => set_t_start (t s) s))))) w.

(* the world in which the rollout of an iteration starts *)
Definition before_rollout {C : Collaborators} (w : World) : World :=
  exec environment_reset w.

(* the world left by accumulate_gradients and update_shared_gradients *)
Definition after_update {C : Collaborators} (b : Batches) (w : World)
  : World :=
  let '(states_batch, action_batch, reward_batch) := b in
  exec (bind (accumulate_gradients states_batch action_batch reward_batch)
             (fun _ => update_shared_gradients)) w.

(* batches that session.run accepts: no feed is empty *)
Definition fed {C : Collaborators} (b : Batches) : Prop :=
  let '(states_batch, action_batch, reward_batch) := b in
  states_batch <> [] /\ action_batch <> [] /\ reward_batch <> [].

(* [w'] differs from [w] by the given environment actions, by [k] steps of
   the local counter, and in the environment and the generator only *)
Definition frame {C : Collaborators} (w w' : World) (acts : list action) (k : Z) : Prop :=
  trace w' = trace w ++ map EvAct acts
  /\ shared_network w' = shared_network w
  /\ t (self w') = t (self w) + k
  /\ t_start (self w') = t_start (self w)
  /\ stop (self w') = stop (self w)
  /\ local_weights (self w') = local_weights (self w)
  /\ local_grads (self w') = local_grads (self w).

(* an action drawn from the policy distribution over [av] *)
Definition chosen {C : Collaborators} (av : list action) (a : action)
  : Prop :=
  exists p g, a = fst (random_choice_p av p g).


(* is the event an application of gradients to the shared store? *)
Definition is_apply {C : Collaborators} (ev : event) : bool :=
  match ev with
  | EvApply _ => true
  | _ => false
  end.


(* a batch row the graph is meant for: a probability vector of [n] entries,
   an action among them, and a positive probability for that action *)
Definition valid_row (n : nat) (r : Loss.Row) : Prop :=
  length (Loss.probs r) = n
  /\ (Loss.a r < n)%nat
  /\ Forall (fun p => (0 <= p)%R) (Loss.probs r)
  /\ (0 < Loss.prob_of r)%R.

(* The frame stack slides: [states] are the observations recorded by a
   rollout that starts from [s]; each next observation drops the oldest frame
   of the previous one and appends one new frame; [next] is the observation
   after the last step. *)
Fixpoint sliding {C : Collaborators} (s : State) (states : list State)
  (next : State) : Prop :=
  match states with
  | [] => next = s
  | s1 :: rest => s1 = s /\ exists scr, sliding (tl s ++ [scr]) rest next
  end.

(* consecutive recorded rewards, starting from [r], are at most [bound]
   apart *)
Fixpoint reward_steps (bound : Q) (r : Q) (rewards : list Q) : Prop :=
  match rewards with
  | [] => True
  | r1 :: rest =>
      (r - bound <= r1)%Q /\ (r1 <= r + bound)%Q /\ reward_steps bound r1 rest
  end.

(* is the event an action on the environment? *)
Definition is_act {C : Collaborators} (ev : event) : bool :=
  match ev with
  | EvAct _ => true
  | _ => false
  end.

(* the return of a step as a function of the rewards from that step on and
   of the seed:  r_i + gamma * (r_(i+1) + gamma * (... + gamma * r0)) *)
Definition discounted_sum (rewards : list Q) (r0 : Q) : Q :=
  fold_right (fun r acc => (r + gamma * acc)%Q) r0 rewards.

(* a network and a thread id on which the constructor succeeds *)
Definition constructible (nw : Network * Z) : Prop :=
  exists s, init_checked (fst nw) (snd nw) = inr s.

(* a worker as its constructor leaves it *)
Definition fresh (s : Thread) : Prop :=
  t s = 1 /\ t_start s = 1 /\ stop s = false /\ kill_received s = None.

(* a batch row with a well-shaped vector of non-negative entries *)
Definition shaped_row (n : nat) (r : Loss.Row) : Prop :=
  length (Loss.probs r) = n
  /\ (Loss.a r < n)%nat
  /\ Forall (fun p => (0 <= p)%R) (Loss.probs r).

(** ** The loop listener of [main.py] *)

Module Listener.

Definition ITERATION_PER_EPOCH : Z := 2000.

(* the module-level variables previous_time and previous_step *)
Record Globals := mkGlobals {
  previous_time : Q;
  previous_step : Z
}.

(* what one call reads from outside: the clock, the global step (once for
   the report and once more before saving) and its iteration argument *)
Record Call := mkCall {
  current_time : Q;
  current_step : Z;
  step_at_save : Z;
  iteration : Z
}.

(* what one call reports or asks of its collaborators *)
Inductive output :=
| Performance (steps : Z) (elapsed_time steps_per_second : Q)
| TestRun (trials epoch : Z)
| SaveParameters (step : Z).

(* loop_listener(thread, iteration); None is the ZeroDivisionError of
   steps / elapsed_time, raised before the module-level variables are
   assigned *)
Definition loop_listener (g : Globals) (c : Call)
  : option (Globals * list output) :=
  let elapsed_time := (current_time c - previous_time g)%Q in
  let steps := (current_step c - previous_step g) * 20 in
  if Qeq_bool elapsed_time (0 # 1) then None
  else
    let report :=
      Performance steps elapsed_time (inject_Z steps / elapsed_time)%Q in
    let g' := mkGlobals (current_time c) (current_step c) in
    let test :=
      if iteration c mod ITERATION_PER_EPOCH =? 0
      then [TestRun 10 (iteration c / ITERATION_PER_EPOCH)]
      else [] in
    let save :=
      if iteration c mod ITERATION_PER_EPOCH =? 0
      then [SaveParameters (step_at_save c)]
      else [] in
    Some (g', report :: test ++ save).

(* a sequence of calls *)
Fixpoint listen (g : Globals) (calls : list Call)
  : option (Globals * list output) :=
  match calls with
  | [] => Some (g, [])
  | c :: rest =>
      match loop_listener g c with
      | None => None
      | Some (g1, out1) =>
          match listen g1 rest with
          | None => None
          | Some (g2, out2) => Some (g2, out1 ++ out2)
          end
      end
  end.

(* the steps reported by a list of outputs *)
Fixpoint reported_steps (out : list output) : Z :=
  match out with
  | [] => 0
  | Performance steps _ _ :: rest => steps + reported_steps rest
  | _ :: rest => reported_steps rest
  end.

Definition is_save (o : output) : bool :=
  match o with SaveParameters _ => true | _ => false end.

Definition is_test (o : output) : bool :=
  match o with TestRun _ _ => true | _ => false end.

Definition at_epoch (c : Call) : bool :=
  iteration c mod ITERATION_PER_EPOCH =? 0.

(* three calls, the first and the last at an epoch boundary *)
Definition three_calls : list Call :=
  [mkCall (1 # 1) 5 5 0; mkCall (2 # 1) 12 12 1; mkCall (4 # 1) 30 31 4000].

(* the module-level variables at import time when the clock shows 0, and
   what the three calls leave and report *)
Definition at_import : Globals := mkGlobals (0 # 1) 0.

Definition after_three_calls : Globals :=
  Eval vm_compute in
    match listen at_import three_calls with
    | Some (g, _) => g
    | None => at_import
    end.

Definition three_calls_output : list output :=
  Eval vm_compute in
    match listen at_import three_calls with
    | Some (_, out) => out
    | None => []
    end.

End Listener.

(* a second valid row, whose policy is sure of the action taken *)
Definition sure_row : Loss.Row :=
  Loss.mkRow [0; 1; 0; 0]%R 1%R 1%nat 2%R.

(** * Properties *)

(** ** What a rollout changes *)

Section Frames.

Context {C : Collaborators}.

Lemma frame_refl (w : World) : frame w w [] 0.
Proof.
  unfold frame; simpl. rewrite app_nil_r. repeat split; lia.
Qed.

Lemma frame_trans (w1 w2 w3 : World) a1 a2 k1 k2 :
  frame w1 w2 a1 k1 -> frame w2 w3 a2 k2 ->
  frame w1 w3 (a1 ++ a2) (k1 + k2).
Proof.
  unfold frame.
  intros (T1 & S1 & K1 & B1 & P1 & W1 & G1) (T2 & S2 & K2 & B2 & P2 & W2 & G2).
  rewrite T2, T1, map_app, app_assoc.
  repeat split; try congruence; lia.
Qed.

Lemma frame_eq (w w' : World) a a' k k' :
  frame w w' a k -> a = a' -> k = k' -> frame w w' a' k'.
Proof. intros F <- <-. exact F. Qed.

(* self.t += 1 *)
Lemma tick_frame (w : World) :
  frame w (set_self (fun s => set_t (t s + 1) s) w) [] 1.
Proof.
  unfold frame; simpl. rewrite app_nil_r. repeat split.
Qed.

Lemma act_frame (a : action) (w : World) :
  exists r scr w', act a w = Ok (r, scr) w' /\ frame w w' [a] 0.
Proof.
  unfold act. destruct (env_act a (environment w)) as [[r scr] e'].
  exists r, scr. eexists. split; [reflexivity|].
  unfold frame; simpl. repeat split; lia.
Qed.

Lemma select_random_frame (av : list action) (w : World) :
  exists a w', select_random_action_from av w = Ok a w' /\ frame w w' [] 0.
Proof.
  unfold select_random_action_from.
  destruct (random_choice av (rng w)) as [a g].
  exists a. eexists. split; [reflexivity|].
  unfold frame; simpl. rewrite app_nil_r. repeat split; lia.
Qed.

Lemma select_action_frame (av : list action) (p : list Q) (w : World) :
  exists w', select_action_with av p w
             = Ok (fst (random_choice_p av p (rng w))) w'
             /\ frame w w' [] 0
             /\ environment w' = environment w.
Proof.
  unfold select_action_with.
  destruct (random_choice_p av p (rng w)) as [a g]. simpl.
  eexists. split; [reflexivity|]. split; [|reflexivity].
  unfold frame; simpl. rewrite app_nil_r. repeat split; lia.
Qed.

(* the warm-up inner loop makes exactly [n] actions and ends with a frame
   as soon as n > 0 *)
Lemma random_acts_frame (n : nat) (av : list action) :
  forall (ns : option Screen) (w : World),
  exists ns' w' acts,
    random_acts n av ns w = Ok ns' w'
    /\ frame w w' acts 0 /\ length acts = n
    /\ (ns' = None -> n = O).
Proof.
  induction n as [|n IH]; intros ns w; simpl.
  - exists ns, w, []. split; [reflexivity|]. split; [apply frame_refl|].
    split; auto.
  - unfold bind at 1.
    destruct (select_random_frame av w) as (a & w1 & E1 & F1). rewrite E1.
    unfold bind at 1.
    destruct (act_frame a w1) as (r & scr & w2 & E2 & F2). rewrite E2.
    destruct (IH (Some scr) w2) as (ns' & w3 & acts & E3 & F3 & L3 & N3).
    exists ns', w3, ([] ++ [a] ++ acts).
    split; [exact E3|]. split.
    + replace 0 with (0 + (0 + 0)) by lia.
      eapply frame_trans; [exact F1|]. eapply frame_trans; eauto.
    + split; [simpl; congruence|].
      intros ->. specialize (N3 eq_refl). rewrite N3 in E3.
      simpl in E3. unfold ret in E3. discriminate E3.
Qed.

Lemma act_repeat_frame (n : nat) (a : action) :
  forall (reward : Q) (ns : option Screen) (w : World),
  exists reward' ns' w',
    act_repeat n a reward ns w = Ok (reward', ns') w'
    /\ frame w w' (repeat a n) 0
    /\ (ns' = None -> n = O).
Proof.
  induction n as [|n IH]; intros reward ns w; simpl.
  - exists reward, ns, w. split; [reflexivity|]. split; [apply frame_refl|].
    auto.
  - unfold bind at 1.
    destruct (act_frame a w) as (r & scr & w1 & E1 & F1). rewrite E1.
    destruct (IH (reward + np_clip r (- (1 # 1)) (1 # 1))%Q (Some scr) w1)
      as (reward' & ns' & w2 & E2 & F2 & N2).
    exists reward', ns', w2. split; [exact E2|]. split.
    + replace 0 with (0 + 0) by lia.
      change (a :: repeat a n) with ([a] ++ repeat a n).
      eapply frame_trans; eauto.
    + intros ->. specialize (N2 eq_refl). rewrite N2 in E2.
      simpl in E2. unfold ret in E2. discriminate E2.
Qed.

Lemma py_is_true (a b : nat) :
  py_is a b = true <-> a = b /\ (b <= 256)%nat.
Proof.
  unfold py_is. rewrite andb_true_iff, Nat.eqb_eq, Nat.leb_le. reflexivity.
Qed.

Lemma py_is_false (a b : nat) :
  py_is a b = false <-> a <> b \/ (256 < b)%nat.
Proof.
  unfold py_is. rewrite andb_false_iff, Nat.eqb_neq, Nat.leb_gt.
  reflexivity.
Qed.

(** The warm-up loop: whenever it returns, it returns [num_channels]
    frames and has made [skip_num] actions for each frame it added. *)
Lemma get_initial_state_loop_frame (fuel : nat) (av : list action) :
  forall (init l : list Screen) (w w' : World),
    get_initial_state_loop fuel av init w = Ok l w' ->
    exists acts,
      frame w w' acts 0
      /\ length l = num_channels
      /\ length acts = ((length l - length init) * skip_num)%nat
      /\ (length init < length l)%nat.
Proof.
  induction fuel as [|fuel IH]; intros init l w w' H;
    cbn [get_initial_state_loop] in H.
  - discriminate H.
  - unfold bind at 1 in H.
    destruct (random_acts_frame skip_num av None w)
      as (ns & w1 & acts & E1 & F1 & L1 & N1).
    rewrite E1 in H.
    destruct ns as [scr|]; [|specialize (N1 eq_refl); discriminate N1].
    unfold bind at 1 in H. simpl in H. unfold ret at 1 in H.
    destruct (py_is (length (init ++ [scr])) num_channels) eqn:E.
    + apply py_is_true in E. destruct E as [E _].
      unfold ret in H. injection H as <- <-.
      exists acts. rewrite length_app in *. simpl in *.
      split; [exact F1|]. split; [exact E|].
      split; [|lia].
      replace (length init + 1 - length init)%nat with 1%nat by lia. lia.
    + apply IH in H. destruct H as (acts2 & F2 & L2 & A2 & I2).
      rewrite length_app in *. simpl in *.
      exists (acts ++ acts2). split.
      * replace 0 with (0 + 0) by lia. eapply frame_trans; eauto.
      * split; [exact L2|]. split; [|lia].
        rewrite length_app, A2, L1.
        replace (length l - length init)%nat
          with (S (length l - (length init + 1)))%nat by lia.
        simpl. lia.
Qed.

(** With at least one and at most 256 channels and enough fuel the warm-up
    loop returns. *)
Lemma get_initial_state_loop_total (fuel : nat) (av : list action) :
  (num_channels <= 256)%nat ->
  forall (init : list Screen) (w : World),
    (length init < num_channels)%nat ->
    (num_channels - length init <= fuel)%nat ->
    exists l w', get_initial_state_loop fuel av init w = Ok l w'.
Proof.
  intros Hsmall.
  induction fuel as [|fuel IH]; intros init w Hlt Hfuel; [lia|].
  cbn [get_initial_state_loop]. unfold bind at 1.
  destruct (random_acts_frame skip_num av None w)
    as (ns & w1 & acts & E1 & F1 & L1 & N1).
  rewrite E1.
  destruct ns as [scr|]; [|specialize (N1 eq_refl); discriminate N1].
  unfold bind at 1. simpl. unfold ret at 1.
  destruct (py_is (length (init ++ [scr])) num_channels) eqn:E.
  - eexists; eexists; reflexivity.
  - apply py_is_false in E. rewrite length_app in E. simpl in E.
    apply IH; rewrite length_app; simpl; lia.
Qed.

(** The rollout loop: whenever it returns, it has appended one record per
    step of the local counter, it stopped on an end state or on
    t - t_start = t_max, and it kept t - t_start within t_max if it was
    within t_max at entry. *)
Lemma play_game_loop_frame (fuel : nat) (av : list action) :
  forall history ns reward w history' ns' reward' w',
    play_game_loop fuel av history ns reward w
      = Ok (history', ns', reward') w' ->
    exists new acts,
      history' = history ++ new
      /\ frame w w' acts (Z.of_nat (length new))
      /\ Forall (fun h => chosen av (h_action h)) new
      /\ (env_is_end_state (environment w') = true
          \/ t (self w') - t_start (self w') = t_max)
      /\ (t (self w) - t_start (self w) <= t_max ->
          t (self w') - t_start (self w') <= t_max).
Proof.
  induction fuel as [|fuel IH];
    intros history ns reward w history' ns' reward' w' H;
    cbn [play_game_loop] in H.
  - discriminate H.
  - unfold bind at 1 in H. unfold is_end_state at 1 in H.
    unfold bind at 1 in H. unfold get at 1 in H.
    destruct (env_is_end_state (environment w)) eqn:Eend;
      cbn [Bool.eqb negb andb] in H.
    { unfold ret in H. injection H as <- <- <- <-.
      exists [], []. rewrite app_nil_r.
      split; [reflexivity|]. split; [apply frame_refl|].
      split; [constructor|]. split; [left; exact Eend|]. auto. }
    destruct (Z.eqb_spec (t (self w) - t_start (self w)) t_max) as [Et|Et];
      cbn [Bool.eqb negb andb] in H.
    { unfold ret in H. injection H as <- <- <- <-.
      exists [], []. rewrite app_nil_r.
      split; [reflexivity|]. split; [apply frame_refl|].
      split; [constructor|]. split; [right; exact Et|]. auto. }
    unfold bind at 1 in H. unfold run_pi at 1 in H.
    unfold bind at 1 in H.
    destruct (select_action_frame av (net_pi (local_weights (self w)) ns) w)
      as (w1 & E1 & F1 & V1).
    rewrite E1 in H.
    set (a := fst (random_choice_p av (net_pi (local_weights (self w)) ns)
                     (rng w))) in *.
    unfold bind at 1 in H.
    destruct (act_repeat_frame skip_num a (reward + (0 # 1))%Q None w1)
      as (rw & nscr & w2 & E2 & F2 & N2).
    rewrite E2 in H.
    destruct nscr as [scr|]; [|specialize (N2 eq_refl); discriminate N2].
    unfold bind at 1 in H. simpl lift_option in H. unfold ret at 1 in H.
    unfold bind at 1 in H. unfold modify at 1 in H.
    apply IH in H. destruct H as (new & acts & Hh & F3 & Hc & Hx & Hb).
    exists (mkSnapshot ns a rw :: new), (repeat a skip_num ++ acts).
    split; [rewrite Hh, <- app_assoc; reflexivity|].
    split.
    { pose proof (frame_trans _ _ _ _ _ _ _ F1 F2) as F12.
      pose proof (frame_trans _ _ _ _ _ _ _ F12 (tick_frame w2)) as F13.
      pose proof (frame_trans _ _ _ _ _ _ _ F13 F3) as F.
      eapply frame_eq; [exact F| |].
      - rewrite app_nil_r. reflexivity.
      - cbn [length]. lia. }
    split.
    { constructor; [|exact Hc]. simpl. unfold chosen, a. eauto. }
    split; [exact Hx|].
    intros Hle. apply Hb.
    pose proof (frame_trans _ _ _ _ _ _ _ F1 F2) as F12.
    pose proof (frame_trans _ _ _ _ _ _ _ F12 (tick_frame w2)) as F13.
    destruct F13 as (_ & _ & K1 & B1 & _). lia.
Qed.


Lemma play_game_frame (fuel : nat) (initial_state : list Screen) :
  forall w history last_state w',
    play_game fuel initial_state w = Ok (history, last_state) w' ->
    exists acts,
      frame (log EvPlayGame w) w' acts (Z.of_nat (length history))
      /\ Forall (fun h => chosen (env_available_actions (environment w))
                                 (h_action h)) history
      /\ (last_state = None <-> env_is_end_state (environment w') = true)
      /\ (env_is_end_state (environment w') = true
          \/ t (self w') - t_start (self w') = t_max)
      /\ (t (self w) - t_start (self w) <= t_max ->
          t (self w') - t_start (self w') <= t_max).
Proof.
  intros w history last_state w' H.
  unfold play_game in H.
  unfold bind at 1 in H. unfold modify at 1 in H.
  unfold bind at 1 in H. unfold available_actions at 1 in H.
  unfold bind at 1 in H.
  destruct (play_game_loop fuel _ [] initial_state (0 # 1)%Q
              (log EvPlayGame w)) as [[[h ns] rw] w1| |] eqn:E;
    try discriminate H.
  apply play_game_loop_frame in E.
  destruct E as (new & acts & Hh & F & Hc & Hx & Hb).
  simpl in Hh. subst h.
  unfold bind at 1 in H. unfold is_end_state at 1 in H. unfold ret in H.
  injection H as <- <- <-.
  exists acts. split; [exact F|]. split; [exact Hc|].
  split; [|split; [exact Hx | exact Hb]].
  destruct (env_is_end_state (environment w1)); split; intros; congruence.
Qed.


(* the frame that a repeated action leaves is the one returned by the
   environment's last act *)
Lemma act_repeat_last (n : nat) (a : action) :
  forall (reward : Q) (ns : option Screen) (w : World) reward' ns' w',
    act_repeat n a reward ns w = Ok (reward', ns') w' ->
    (0 < n)%nat ->
    exists scr e r,
      ns' = Some scr /\ env_act a e = (r, scr, environment w').
Proof.
  induction n as [|n IH]; intros reward ns w reward' ns' w' H Hn; [lia|].
  cbn [act_repeat] in H. unfold bind at 1 in H. unfold act at 1 in H.
  destruct (env_act a (environment w)) as [[r scr] e'] eqn:Ea.
  destruct n as [|n].
  - cbn [act_repeat] in H. unfold ret in H. injection H as _ <- <-.
    exists scr, (environment w), r. split; [reflexivity|exact Ea].
  - eapply IH; [exact H|lia].
Qed.

(** The observation with which the rollout loop ends: the one it was given
    when it makes no step, and otherwise the last recorded state without its
    oldest frame and with the frame of the environment's last act. *)
Lemma play_game_loop_last (fuel : nat) (av : list action) :
  forall history ns reward w history' ns' reward' w',
    play_game_loop fuel av history ns reward w
      = Ok (history', ns', reward') w' ->
    ((env_is_end_state (environment w) = true
      \/ t (self w) - t_start (self w) = t_max)
     /\ history' = history /\ ns' = ns /\ w' = w)
    \/ (env_is_end_state (environment w) = false
        /\ t (self w) - t_start (self w) <> t_max
        /\ exists pre h scr e r,
             history' = history ++ pre ++ [h]
             /\ ns' = tl (h_state h) ++ [scr]
             /\ env_act (h_action h) e = (r, scr, environment w')).
Proof.
  induction fuel as [|fuel IH];
    intros history ns reward w history' ns' reward' w' H;
    cbn [play_game_loop] in H.
  - discriminate H.
  - unfold bind at 1 in H. unfold is_end_state at 1 in H.
    unfold bind at 1 in H. unfold get at 1 in H.
    destruct (env_is_end_state (environment w)) eqn:Eend;
      cbn [Bool.eqb negb andb] in H.
    { unfold ret in H. injection H as <- <- <- <-.
      left. split; [left; reflexivity|]. repeat split. }
    destruct (Z.eqb_spec (t (self w) - t_start (self w)) t_max) as [Et|Et];
      cbn [Bool.eqb negb andb] in H.
    { unfold ret in H. injection H as <- <- <- <-.
      left. split; [right; exact Et|]. repeat split. }
    right. split; [reflexivity|]. split; [exact Et|].
    unfold bind at 1 in H. unfold run_pi at 1 in H.
    unfold bind at 1 in H.
    destruct (select_action_frame av (net_pi (local_weights (self w)) ns) w)
      as (w1 & E1 & F1 & V1).
    rewrite E1 in H.
    set (a := fst (random_choice_p av (net_pi (local_weights (self w)) ns)
                     (rng w))) in *.
    unfold bind at 1 in H.
    destruct (act_repeat_frame skip_num a (reward + (0 # 1))%Q None w1)
      as (rw & nscr & w2 & E2 & F2 & N2).
    rewrite E2 in H.
    destruct (act_repeat_last _ _ _ _ _ _ _ _ E2) as (scr & e & r & -> & Ea);
      [unfold skip_num; lia|].
    unfold bind at 1 in H. simpl lift_option in H. unfold ret at 1 in H.
    unfold bind at 1 in H. unfold modify at 1 in H.
    apply IH in H.
    destruct H as [(_ & -> & -> & ->)
                  |(_ & _ & pre & h & scr2 & e2 & r2 & Hh & Hn & He)].
    + exists [], (mkSnapshot ns a rw), scr, e, r.
      repeat split. exact Ea.
    + exists (mkSnapshot ns a rw :: pre), h, scr2, e2, r2.
      split; [rewrite Hh, <- app_assoc; reflexivity|].
      split; assumption.
Qed.

(** A rollout entered off the horizon records a step unless the environment
    is in an end state, and the last state it reports is the last recorded
    state slid by the frame of the environment's last act. *)
Lemma play_game_last (fuel : nat) (initial_state : list Screen) :
  forall w history last_state w',
    t (self w) - t_start (self w) <> t_max ->
    play_game fuel initial_state w = Ok (history, last_state) w' ->
    (env_is_end_state (environment w) = false -> history <> [])
    /\ (forall s, last_state = Some s ->
          exists pre h scr e r,
            history = pre ++ [h]
            /\ s = tl (h_state h) ++ [scr]
            /\ env_act (h_action h) e = (r, scr, environment w')).
Proof.
  intros w history last_state w' Ht H.
  unfold play_game in H.
  unfold bind at 1 in H. unfold modify at 1 in H.
  unfold bind at 1 in H. unfold available_actions at 1 in H.
  unfold bind at 1 in H.
  destruct (play_game_loop fuel _ [] initial_state (0 # 1)%Q
              (log EvPlayGame w)) as [[[h ns] rw] w1| |] eqn:E;
    try discriminate H.
  apply play_game_loop_last in E.
  unfold bind at 1 in H. unfold is_end_state at 1 in H. unfold ret in H.
  injection H as <- <- <-.
  cbn [environment self log] in E.
  destruct E as [(Hx & -> & -> & ->)
                |(Hf & _ & pre & h0 & scr & e & r & Hh & Hn & He)].
  - destruct Hx as [Hx|Hx]; [|contradiction].
    cbn [environment log]. rewrite Hx.
    split; [intros Hf; discriminate Hf|intros s Hs; discriminate Hs].
  - cbn [app] in Hh. subst h. split.
    + intros _ Hnil. destruct pre; discriminate Hnil.
    + intros s Hs. destruct (env_is_end_state (environment w1));
        [discriminate Hs|]. injection Hs as <-.
      exists pre, h0, scr, e, r. repeat split; assumption.
Qed.

End Frames.

(** ** The backward pass *)

Section Returns.

Context {C : Collaborators}.

Lemma py_getitem_nat {A : Type} (l : list A) (k : nat) :
  (k < length l)%nat -> py_getitem l (Z.of_nat k) = nth_error l k.
Proof.
  intros H. unfold py_getitem.
  destruct (Z.leb_spec 0 (Z.of_nat k)); [|lia].
  destruct (Z.ltb_spec (Z.of_nat k) (Z.of_nat (length l))); [|lia].
  simpl. rewrite Nat2Z.id. reflexivity.
Qed.

Lemma range_down_succ (k : nat) :
  range_down (Z.of_nat (S k) - 1)
  = Z.of_nat k :: range_down (Z.of_nat k - 1).
Proof.
  unfold range_down.
  replace (Z.to_nat (Z.of_nat (S k) - 1 + 1)) with (S k) by lia.
  replace (Z.to_nat (Z.of_nat k - 1 + 1)) with k by lia.
  cbn [seq map]. f_equal; [lia|].
  rewrite <- seq_shift, map_map.
  apply map_ext. intros j. lia.
Qed.

Lemma range_down_neg : range_down (-1) = [].
Proof. reflexivity. Qed.

Lemma firstn_succ_nth {A : Type} (l : list A) (k : nat) (x : A) :
  nth_error l k = Some x -> firstn (S k) l = firstn k l ++ [x].
Proof.
  revert k. induction l as [|y l IH]; intros [|k] H; simpl in *;
    try discriminate.
  - injection H as ->. reflexivity.
  - f_equal. apply IH. exact H.
Qed.

(** The backward pass over the first [k] records visits them last to
    first and appends, for each, its state, its one-hot action and the
    running return. *)
Lemma returns_loop_spec (history : list Snapshot) :
  Forall (fun h => (h_action h < actor_outputs)%nat) history ->
  forall (k : nat) (r : Q) sb ab rb,
    (k <= length history)%nat ->
    let visited := rev (firstn k history) in
    returns_loop history (range_down (Z.of_nat k - 1)) r (sb, ab, rb)
    = Some (sb ++ map h_state visited,
            ab ++ map action_vector visited,
            rb ++ map (fun x => [x]) (running (map h_reward visited) r)).
Proof.
  intros Hv. induction k as [|k IH]; intros r sb ab rb Hk visited.
  - subst visited. simpl. rewrite !app_nil_r. reflexivity.
  - rewrite range_down_succ. cbn [returns_loop].
    rewrite py_getitem_nat by lia.
    destruct (nth_error history k) as [x|] eqn:Ex;
      [|apply nth_error_None in Ex; lia].
    assert (Hx : (h_action x < actor_outputs)%nat).
    { rewrite Forall_forall in Hv. apply Hv.
      eapply nth_error_In; eauto. }
    unfold extract_history.
    assert (Ho : one_hot actor_outputs (h_action x)
                 = Some (action_vector x)).
    { unfold action_vector, one_hot, one_hot_of.
      apply Nat.ltb_lt in Hx. rewrite Hx. reflexivity. }
    rewrite Ho. rewrite IH by lia.
    subst visited. rewrite (firstn_succ_nth _ _ _ Ex).
    rewrite rev_app_distr. simpl.
    rewrite <- !app_assoc. reflexivity.
Qed.

Lemma last_hd_rev {A : Type} (l : list A) (d : A) :
  last l d = hd d (rev l).
Proof.
  induction l as [|x l IH]; [reflexivity|].
  destruct l as [|y l]; [reflexivity|].
  change (last (x :: y :: l) d) with (last (y :: l) d). rewrite IH.
  simpl. destruct (rev l ++ [y]) eqn:E; [|reflexivity].
  apply app_eq_nil in E. destruct E; discriminate.
Qed.

Lemma last_cons_default {A : Type} (l : list A) :
  forall (a d d' : A), last (a :: l) d = last (a :: l) d'.
Proof.
  induction l as [|z l IH]; intros a d d'; [reflexivity|].
  change (last (z :: l) d = last (z :: l) d'). apply IH.
Qed.

Lemma running_snoc (l : list Q) (x r : Q) :
  running (l ++ [x]) r
  = running l r ++ [(x + gamma * last (running l r) r)%Q].
Proof.
  revert r. induction l as [|y l IH]; intros r; [reflexivity|].
  simpl. rewrite IH. f_equal. f_equal.
  destruct (running l (y + gamma * r)%Q) as [|q l0] eqn:E.
  - destruct l; [reflexivity|discriminate].
  - rewrite (last_cons_default l0 q r (y + gamma * r)%Q). reflexivity.
Qed.

(** Put back in time order, the running returns are the discounted
    returns. *)
Lemma running_rev (rewards : list Q) (r0 : Q) :
  rev (running (rev rewards) r0) = discounted rewards r0.
Proof.
  induction rewards as [|x l IH]; [reflexivity|].
  simpl. rewrite running_snoc, rev_app_distr. simpl.
  rewrite last_hd_rev, IH. reflexivity.
Qed.

(** The recursion of the discounted returns, index by index; past the
    last step the next return is the seed. *)
Lemma discounted_nth (rewards : list Q) (r0 : Q) :
  forall (i : nat) (r : Q),
    nth_error rewards i = Some r ->
    nth_error (discounted rewards r0) i
    = Some (r + gamma * nth (S i) (discounted rewards r0) r0)%Q.
Proof.
  induction rewards as [|x l IH]; intros [|i] r H; simpl in *;
    try discriminate.
  - injection H as ->. destruct (discounted l r0); reflexivity.
  - apply IH. exact H.
Qed.

Lemma discounted_length (rewards : list Q) (r0 : Q) :
  length (discounted rewards r0) = length rewards.
Proof. induction rewards; simpl; congruence. Qed.

End Returns.

(** ** One iteration of the outer loop *)

Section Iteration.

Context {C : Collaborators}.

(* the return computation reads the world and leaves it as it is *)
Lemma return_computation_world history last_state (w w' : World) b :
  return_computation history last_state w = Ok b w' -> w' = w.
Proof.
  unfold return_computation, bootstrap, bind, get, run_value, ret.
  destruct last_state;
    match goal with
    | |- context [lift_option _ ?o] => destruct o
    end; simpl; unfold ret, raise; congruence.
Qed.

(** A completed iteration decomposes into warm-up, environment reset,
    rollout, return computation and update, in this order. *)
Lemma run_iteration_inv (fuel : nat) (w w' : World) :
  run_iteration fuel w = Ok tt w' ->
  exists initial_state w1 history last_state w2 b,
    get_initial_state fuel (before_warmup w) = Ok initial_state w1
    /\ play_game fuel initial_state (before_rollout w1)
       = Ok (history, last_state) w2
    /\ return_computation history last_state w2 = Ok b w2
    /\ fed b
    /\ w' = after_update b w2.
Proof.
  intros H. unfold run_iteration in H.
  cbv [bind reset_gradients sync_network_parameters modify] in H.
  match type of H with
  | context [get_initial_state fuel ?w0] =>
      change w0 with (before_warmup w) in H
  end.
  destruct (get_initial_state fuel (before_warmup w))
    as [initial_state w1| |] eqn:E1; try discriminate H.
  change (environment_reset w1) with (Ok tt (before_rollout w1)) in H.
  cbv iota beta in H.
  destruct (play_game fuel initial_state (before_rollout w1))
    as [[history last_state] w2| |] eqn:E2; try discriminate H.
  cbv iota beta in H.
  destruct (return_computation history last_state w2)
    as [b w3| |] eqn:E3; try discriminate H.
  pose proof (return_computation_world _ _ _ _ _ E3) as ->.
  exists initial_state, w1, history, last_state, w2, b.
  split; [reflexivity|]. split; [assumption|]. split; [assumption|].
  destruct b as [[sb ab] rb]. cbv iota beta in H.
  destruct sb as [|s sb]; [discriminate H|].
  destruct ab as [|a ab]; [discriminate H|].
  destruct rb as [|r rb]; [discriminate H|].
  split; [repeat split; discriminate|].
  unfold accumulate_gradients, update_shared_gradients, modify in H.
  injection H as <-. reflexivity.
Qed.

(* session.run accepts the batches exactly when none is empty *)
Lemma accumulate_gradients_fed (sb : list State) (ab rb : list (list Q))
  (w : World) :
  sb <> [] -> ab <> [] -> rb <> [] ->
  accumulate_gradients sb ab rb w
  = Ok tt (log (EvAccumulate sb ab rb)
             (set_self (fun s =>
                set_local_grads
                  (accum_rows (local_weights s) (local_grads s) sb ab rb) s)
                w)).
Proof.
  intros Hs Ha Hr.
  destruct sb; [contradiction|]. destruct ab; [contradiction|].
  destruct rb; [contradiction|]. reflexivity.
Qed.

Lemma accumulate_gradients_empty (sb : list State) (ab rb : list (list Q))
  (w : World) :
  sb = [] \/ ab = [] \/ rb = [] ->
  accumulate_gradients sb ab rb w = Raise ValueError.
Proof.
  intros [-> | [-> | ->]]; [reflexivity| |].
  - destruct sb; reflexivity.
  - destruct sb; [reflexivity|]. destruct ab; reflexivity.
Qed.

(** The converse: warm-up, rollout and return computation lead to the
    accumulation and the apply on their batches. *)
Lemma run_iteration_parts (fuel : nat) (w : World)
  initial_state w1 history last_state w2 sb ab rb :
  get_initial_state fuel (before_warmup w) = Ok initial_state w1 ->
  play_game fuel initial_state (before_rollout w1)
    = Ok (history, last_state) w2 ->
  return_computation history last_state w2 = Ok (sb, ab, rb) w2 ->
  run_iteration fuel w
  = bind (accumulate_gradients sb ab rb)
         (fun _ => update_shared_gradients) w2.
Proof.
  intros E1 E2 E3. unfold run_iteration.
  unfold bind at 1. unfold reset_gradients at 1. unfold modify at 1.
  unfold bind at 1. unfold sync_network_parameters at 1. unfold modify at 1.
  unfold bind at 1. unfold modify at 1.
  unfold bind at 1.
  match goal with
  | |- context [get_initial_state fuel ?w0] =>
      change w0 with (before_warmup w)
  end.
  rewrite E1.
  unfold bind at 1.
  change (environment_reset w1) with (Ok tt (before_rollout w1)).
  cbv iota beta. unfold bind at 1. rewrite E2. cbv iota beta.
  unfold bind at 1. rewrite E3. reflexivity.
Qed.


Lemma get_initial_state_frame (fuel : nat) (w w' : World) l :
  get_initial_state fuel w = Ok l w' ->
  exists acts,
    frame (log EvGetInitialState w) w' acts 0
    /\ length l = num_channels
    /\ length acts = (num_channels * skip_num)%nat.
Proof.
  unfold get_initial_state. cbv [bind modify available_actions].
  intros H. apply get_initial_state_loop_frame in H.
  destruct H as (acts & F & L & A & _). simpl in A.
  exists acts. split; [exact F|]. split; [exact L|].
  rewrite A, L. f_equal. lia.
Qed.

Lemma get_initial_state_total (fuel : nat) (w : World) :
  (1 <= num_channels <= 256)%nat ->
  (num_channels <= fuel)%nat ->
  exists l w', get_initial_state fuel w = Ok l w'.
Proof.
  intros H Hf. unfold get_initial_state.
  cbv [bind modify available_actions].
  apply get_initial_state_loop_total; simpl; lia.
Qed.

(* the one-hot vector exists for an action the network has an output for *)
Lemma one_hot_action_vector (h : Snapshot) :
  (h_action h < actor_outputs)%nat ->
  one_hot actor_outputs (h_action h) = Some (action_vector h).
Proof.
  intros H. unfold action_vector, one_hot, one_hot_of.
  apply Nat.ltb_lt in H. rewrite H. reflexivity.
Qed.

(** After a rollout that left t - t_start = len(history), the return
    computation visits the whole history backwards. *)
Lemma return_computation_spec history last_state (w : World) :
  Forall (fun h => (h_action h < actor_outputs)%nat) history ->
  t (self w) - t_start (self w) = Z.of_nat (length history) ->
  return_computation history last_state w
  = Ok (map h_state (rev history),
        map action_vector (rev history),
        map (fun x => [x])
            (running (map h_reward (rev history))
               match last_state with
               | None => (0 # 1)%Q
               | Some s => net_value (local_weights (self w)) s
               end)) w.
Proof.
  intros Hv Ht. unfold return_computation.
  assert (Hb : bootstrap last_state w
               = Ok match last_state with
                    | None => (0 # 1)%Q
                    | Some s => net_value (local_weights (self w)) s
                    end w).
  { destruct last_state; reflexivity. }
  unfold bind at 1. rewrite Hb. unfold bind at 1. unfold get at 1.
  replace (t (self w) - 1 - t_start (self w))
    with (Z.of_nat (length history) - 1) by lia.
  rewrite (returns_loop_spec history Hv (length history)) by lia.
  rewrite firstn_all. reflexivity.
Qed.

Lemma before_warmup_facts (w : World) :
  trace (before_warmup w) = trace w ++ [EvResetGradients; EvSync]
  /\ shared_network (before_warmup w) = shared_network w
  /\ t (self (before_warmup w)) = t (self w)
  /\ t_start (self (before_warmup w)) = t (self w)
  /\ local_grads (self (before_warmup w))
     = map (fun vg => zeros (length (fst vg)))
           (combine (local_weights (self w)) (local_grads (self w))).
Proof.
  unfold before_warmup, exec. simpl. rewrite <- app_assoc.
  repeat split.
Qed.

(* what the warm-up, the reset and the rollout of an iteration leave *)
Lemma rollout_facts (fuel : nat) (w w1 w2 : World)
  initial_state history last_state :
  get_initial_state fuel (before_warmup w) = Ok initial_state w1 ->
  play_game fuel initial_state (before_rollout w1)
    = Ok (history, last_state) w2 ->
  exists warm rollout,
    trace w2 = trace w ++ [EvResetGradients; EvSync; EvGetInitialState]
               ++ map EvAct warm ++ [EvEnvReset; EvPlayGame]
               ++ map EvAct rollout
    /\ length warm = (num_channels * skip_num)%nat
    /\ length initial_state = num_channels
    /\ shared_network w2 = shared_network w
    /\ t (self w2) - t_start (self w2) = Z.of_nat (length history)
    /\ t (self w2) = t (self w) + Z.of_nat (length history)
    /\ local_grads (self w2) = local_grads (self (before_warmup w))
    /\ local_weights (self w2) = local_weights (self (before_warmup w))
    /\ Forall (fun h => chosen (env_available_actions
                                  (env_reset (environment w1)))
                               (h_action h)) history
    /\ (last_state = None <-> env_is_end_state (environment w2) = true)
    /\ (env_is_end_state (environment w2) = true
        \/ Z.of_nat (length history) = t_max).
Proof.
  intros E1 E2.
  destruct (before_warmup_facts w) as (T0 & S0 & K0 & B0 & G0).
  apply get_initial_state_frame in E1.
  destruct E1 as (warm & F1 & L1 & A1).
  apply play_game_frame in E2.
  destruct E2 as (rollout & F2 & Hc & Hl & Hx & _).
  destruct F1 as (T1 & S1 & K1 & B1 & P1 & W1 & G1).
  destruct F2 as (T2 & S2 & K2 & B2 & P2 & W2 & G2).
  cbn [trace log self shared_network environment before_rollout exec
       environment_reset modify set_environment]
    in T1, S1, K1, B1, P1, W1, G1, T2, S2, K2, B2, P2, W2, G2, Hc.
  exists warm, rollout.
  assert (Hd : t (self w2) - t_start (self w2)
               = Z.of_nat (length history)) by lia.
  split.
  { rewrite T2, T1, T0. rewrite <- !app_assoc. reflexivity. }
  repeat split; try assumption; try congruence; try lia;
    try apply Hl.
Qed.



Lemma apply_gradients_counter (g : list Tensor) (sh : Shared) :
  shared_counter (apply_gradients g sh) = shared_counter sh + 1.
Proof.
  unfold apply_gradients.
  destruct (optimizer_step g (shared_weights sh, opt_state sh)).
  reflexivity.
Qed.

Lemma apply_gradients_step (g : list Tensor) (sh : Shared) :
  (shared_weights (apply_gradients g sh), opt_state (apply_gradients g sh))
  = optimizer_step g (shared_weights sh, opt_state sh).
Proof.
  unfold apply_gradients.
  destruct (optimizer_step g (shared_weights sh, opt_state sh)).
  reflexivity.
Qed.

Lemma after_update_facts (sb : list State) (ab rb : list (list Q))
  (w : World) :
  fed (sb, ab, rb) ->
  let grads := accum_rows (local_weights (self w)) (local_grads (self w))
                          sb ab rb in
  trace (after_update (sb, ab, rb) w)
  = trace w ++ [EvAccumulate sb ab rb; EvApply (clipped_grads grads)]
  /\ shared_network (after_update (sb, ab, rb) w)
     = apply_gradients (clipped_grads grads) (shared_network w)
  /\ local_grads (self (after_update (sb, ab, rb) w)) = grads
  /\ t (self (after_update (sb, ab, rb) w)) = t (self w).
Proof.
  intros (Hs & Ha & Hr). unfold after_update, exec, bind.
  rewrite (accumulate_gradients_fed sb ab rb w Hs Ha Hr).
  simpl. rewrite <- app_assoc.
  repeat split.
Qed.

Lemma filter_is_apply_acts (acts : list action) :
  filter is_apply (map EvAct acts) = [].
Proof. induction acts; simpl; auto. Qed.

(** The events of a completed iteration, and its effect on the shared
    counter. *)
Lemma run_iteration_trace (fuel : nat) (w w' : World) :
  run_iteration fuel w = Ok tt w' ->
  exists warm rollout sb ab rb,
    trace w' = trace w
               ++ [EvResetGradients; EvSync; EvGetInitialState]
               ++ map EvAct warm ++ [EvEnvReset; EvPlayGame]
               ++ map EvAct rollout
               ++ [EvAccumulate sb ab rb;
                   EvApply (clipped_grads (local_grads (self w')))]
    /\ length warm = (num_channels * skip_num)%nat
    /\ shared_network w'
       = apply_gradients (clipped_grads (local_grads (self w')))
                         (shared_network w).
Proof.
  intros H. apply run_iteration_inv in H.
  destruct H as (initial_state & w1 & history & last_state & w2
                 & [[sb ab] rb] & E1 & E2 & E3 & Hfed & ->).
  destruct (rollout_facts _ _ _ _ _ _ _ E1 E2)
    as (warm & rollout & T & L & _ & S & _).
  destruct (after_update_facts sb ab rb w2 Hfed) as (T' & S' & G' & _).
  exists warm, rollout, sb, ab, rb.
  rewrite G'. split; [|split; [exact L|]].
  - rewrite T', T. rewrite <- !app_assoc. reflexivity.
  - rewrite S', S. reflexivity.
Qed.

End Iteration.

(** ** The outer-loop guard *)

Section Guard.

Context {C : Collaborators}.

(* the guard lets an iteration start exactly below t_max = 10 with the
   stop flag down, whatever was passed to the constructor *)
Lemma run_guard_iff (global_step : Z) (s : Thread) :
  run_guard global_step s = true <-> global_step < 10 /\ stop s = false.
Proof.
  unfold run_guard, t_max. rewrite andb_true_iff, Z.ltb_lt.
  destruct (stop s); simpl; intuition congruence.
Qed.


End Guard.

(** ** The interrupt path *)

Section Interrupt.

Import Coordinator.

(* the except clause of the join loop leaves every stop flag as it was *)
Lemma keyboard_interrupt_keeps_guards (global_step : Z) (p : Process) :
  still_running global_step (keyboard_interrupt p)
  = still_running global_step p.
Proof.
  unfold still_running, keyboard_interrupt. simpl. rewrite map_map.
  apply map_ext. intros s. reflexivity.
Qed.

End Interrupt.

(** ** Gradient clipping *)

Section Clipping.

Context {C : Collaborators}.

(* one element through tf.clip_by_value(., -grad_clip, grad_clip) *)
Lemma clip_element (x : Q) :
  let y := Qmax (Qmin x grad_clip) (- grad_clip) in
  (- (40 # 1) <= y)%Q /\ (y <= 40 # 1)%Q
  /\ ((x < - (40 # 1))%Q -> y = (- (40 # 1))%Q)
  /\ ((40 # 1 < x)%Q -> y = (40 # 1)%Q)
  /\ ((- (40 # 1) <= x)%Q -> (x <= 40 # 1)%Q -> y = x).
Proof.
  unfold Qmax, Qmin, GenericMinMax.gmax, GenericMinMax.gmin, grad_clip.
  destruct (Qcompare_spec x (40 # 1)) as [E1|E1|E1].
  - destruct (Qcompare_spec x (- (40 # 1))) as [E2|E2|E2];
      repeat split; intros; try reflexivity; try Lqa.lra.
  - destruct (Qcompare_spec x (- (40 # 1))) as [E2|E2|E2];
      repeat split; intros; try reflexivity; try Lqa.lra.
  - destruct (Qcompare_spec (40 # 1) (- (40 # 1))) as [E2|E2|E2];
      repeat split; intros; try reflexivity; try Lqa.lra.
Qed.

Lemma clip_by_value_nth (tensor : Tensor) (j : nat) (x : Q) :
  nth_error tensor j = Some x ->
  nth_error (clip_by_value tensor (- grad_clip) grad_clip) j
  = Some (Qmax (Qmin x grad_clip) (- grad_clip)).
Proof.
  intros H. unfold clip_by_value.
  rewrite nth_error_map, H. reflexivity.
Qed.

(* clipping the reset accumulator gives zeros again *)
Lemma clip_zeros (n : nat) :
  clip_by_value (zeros n) (- grad_clip) grad_clip = zeros n.
Proof.
  unfold clip_by_value, zeros.
  induction n as [|n IH]; [reflexivity|].
  simpl. rewrite IH. reflexivity.
Qed.

End Clipping.

(** ** The degenerate iteration *)

Section Degenerate.

Context {C : Collaborators}.

(* in an end state the rollout records nothing and reports no last state *)
Lemma play_game_end_state (fuel : nat) (initial_state : list Screen)
  (w : World) :
  (1 <= fuel)%nat ->
  env_is_end_state (environment w) = true ->
  play_game fuel initial_state w = Ok ([], None) (log EvPlayGame w).
Proof.
  intros Hf He. destruct fuel as [|fuel]; [lia|].
  unfold play_game. cbv [bind modify available_actions].
  cbn [play_game_loop]. cbv [bind is_end_state get].
  cbn [environment log]. rewrite He. cbn [Bool.eqb andb].
  unfold ret. cbn [environment log]. rewrite He. reflexivity.
Qed.

End Degenerate.

(** ** The loss graph *)

Section LossGraph.

Local Open Scope R_scope.

Lemma eps_pos : 0 < Loss.eps.
Proof.
  unfold Loss.eps. apply Rinv_0_lt_compat. apply pow_lt. Lra.lra.
Qed.

Lemma tf_log_pos (x : R) : 0 < x -> Loss.tf_log x = Some (ln x).
Proof.
  intros H. unfold Loss.tf_log. destruct (Rlt_dec 0 x); [reflexivity|].
  contradiction.
Qed.

Lemma tf_log_nonpos (x : R) : x <= 0 -> Loss.tf_log x = None.
Proof.
  intros H. unfold Loss.tf_log. destruct (Rlt_dec 0 x); [Lra.lra|].
  reflexivity.
Qed.

Lemma log_col_pos (l : list R) :
  Forall (fun x => 0 < x) l -> Loss.log_col l = Some (map ln l).
Proof.
  induction 1 as [|x l Hx Hl IH]; [reflexivity|].
  simpl. rewrite (tf_log_pos x Hx), IH. reflexivity.
Qed.

Lemma log_col_singular (l : list R) :
  Exists (fun x => x <= 0) l -> Loss.log_col l = None.
Proof.
  induction 1 as [x l Hx|x l Hl IH]; simpl.
  - rewrite (tf_log_nonpos x Hx). reflexivity.
  - rewrite IH. destruct (Loss.tf_log x); reflexivity.
Qed.

(* the guarded logarithm is finite on every matrix of probabilities *)
Lemma log_pi_guarded (m : Loss.Mat) :
  Forall (Forall (fun p => 0 <= p)) m ->
  Loss.log_pi m = Some (map (map (fun p => ln (p + Loss.eps))) m).
Proof.
  unfold Loss.log_pi.
  induction 1 as [|row m Hrow Hm IH]; [reflexivity|].
  simpl. rewrite IH.
  rewrite log_col_pos.
  - rewrite map_map. reflexivity.
  - rewrite Forall_map. eapply Forall_impl; [|exact Hrow].
    intros p Hp. simpl. pose proof eps_pos. Lra.lra.
Qed.

(* the product with a one-hot row selects one entry *)
Lemma reduce_sum_one_hot (p : list R) :
  forall (a n : nat),
    length p = n -> (a < n)%nat ->
    Loss.reduce_sum (Loss.mul p (repeat 0 a ++ 1 :: repeat 0 (n - S a)))
    = nth a p 0.
Proof.
  induction p as [|x p IH]; intros a n Hl Ha; simpl in Hl; [lia|].
  destruct n as [|n]; [lia|]. injection Hl as Hl.
  destruct a as [|a].
  - simpl. rewrite Nat.sub_0_r.
    assert (Hz : forall (q : list R) k,
               Loss.reduce_sum (Loss.mul q (repeat 0 k)) = 0).
    { induction q as [|y q IHq]; intros [|k]; simpl; try reflexivity.
      rewrite IHq. Lra.lra. }
    rewrite Hz. Lra.lra.
  - simpl. rewrite (IH a n Hl) by lia. Lra.lra.
Qed.

Lemma pi_a_s_rows (n : nat) (rows : list Loss.Row) :
  Forall (valid_row n) rows ->
  Loss.pi_a_s (map Loss.probs rows) (map (Loss.action_row n) rows)
  = map Loss.prob_of rows.
Proof.
  unfold Loss.pi_a_s.
  induction 1 as [|r rows (Hl & Ha & _) Hrows IH]; [reflexivity|].
  simpl. rewrite IH. f_equal.
  unfold Loss.action_row, one_hot_of, Loss.prob_of.
  apply Nat.ltb_lt in Ha as Ha'. rewrite Ha'.
  apply reduce_sum_one_hot; assumption.
Qed.

Lemma entropy_rows (f : R -> R) (m : Loss.Mat) :
  Loss.mul_sum_rows m (map (map f) m)
  = map (fun row => Loss.reduce_sum (map (fun x => x * f x) row)) m.
Proof.
  induction m as [|row m IH]; [reflexivity|].
  simpl. rewrite IH. f_equal.
  induction row as [|x row IHrow]; [reflexivity|].
  simpl. rewrite IHrow. reflexivity.
Qed.

Lemma sub_map {A : Type} (f g : A -> R) (l : list A) :
  Loss.sub (map f l) (map g l) = map (fun x => f x - g x) l.
Proof. induction l; simpl; congruence. Qed.

Lemma mul_map {A : Type} (f g : A -> R) (l : list A) :
  Loss.mul (map f l) (map g l) = map (fun x => f x * g x) l.
Proof. induction l; simpl; congruence. Qed.

Lemma reduce_sum_scale {A : Type} (f : A -> R) (c : R) (l : list A) :
  Loss.reduce_sum (map (fun x => f x * c) l)
  = c * Loss.reduce_sum (map f l).
Proof.
  induction l as [|x l IH]; simpl; [Lra.lra|]. rewrite IH. Lra.lra.
Qed.

(** On a batch of valid rows the graph is finite and computes
    graph_total_loss. *)
Lemma loss_of_rows_valid (n : nat) (rows : list Loss.Row) :
  Forall (valid_row n) rows ->
  Loss.loss_of_rows n rows = Some (Loss.graph_total_loss rows).
Proof.
  intros Hv.
  unfold Loss.loss_of_rows, Loss.total_loss, Loss.prepare_loss_operations.
  rewrite log_pi_guarded.
  2:{ rewrite Forall_map. eapply Forall_impl; [|exact Hv].
      intros r (_ & _ & Hp & _). exact Hp. }
  unfold Loss.log_pi_a_s. rewrite (pi_a_s_rows n rows Hv).
  rewrite log_col_pos.
  2:{ rewrite Forall_map. eapply Forall_impl; [|exact Hv].
      intros r (_ & _ & _ & Hp). exact Hp. }
  rewrite entropy_rows, sub_map. rewrite !map_map. rewrite mul_map.
  rewrite reduce_sum_scale.
  unfold Loss.graph_total_loss. f_equal. Lra.lra.
Qed.

(* on well-shaped rows pi_a_s is the probability of the action taken *)
Lemma pi_a_s_shaped (n : nat) (rows : list Loss.Row) :
  Forall (fun r => length (Loss.probs r) = n /\ (Loss.a r < n)%nat) rows ->
  Loss.pi_a_s (map Loss.probs rows) (map (Loss.action_row n) rows)
  = map Loss.prob_of rows.
Proof.
  intros Hv. unfold Loss.pi_a_s.
  induction Hv as [|r rows (Hl & Ha) Hrows IH]; [reflexivity|].
  simpl. rewrite IH. f_equal.
  unfold Loss.action_row, one_hot_of, Loss.prob_of.
  apply Nat.ltb_lt in Ha as Ha'. rewrite Ha'.
  apply reduce_sum_one_hot; assumption.
Qed.

(** A row whose action has probability 0 makes the loss non-finite. *)
Lemma loss_of_rows_singular (n : nat) (rows : list Loss.Row) :
  Forall (fun r => length (Loss.probs r) = n /\ (Loss.a r < n)%nat) rows ->
  Exists (fun r => Loss.prob_of r <= 0) rows ->
  Loss.loss_of_rows n rows = None.
Proof.
  intros Hv Hz.
  pose proof (pi_a_s_shaped n rows Hv) as Hp.
  unfold Loss.loss_of_rows, Loss.total_loss, Loss.prepare_loss_operations.
  destruct (Loss.log_pi (map Loss.probs rows)); [|reflexivity].
  unfold Loss.log_pi_a_s. rewrite Hp, log_col_singular; [reflexivity|].
  apply Exists_exists. apply Exists_exists in Hz.
  destruct Hz as (r & Hin & Hr). exists (Loss.prob_of r).
  split; [apply in_map; exact Hin|exact Hr].
Qed.

End LossGraph.

(** ** Encoding of the batches *)

Section Batches.

Context {C : Collaborators}.

Lemma one_hot_some (n : nat) (a : action) :
  (a < n)%nat ->
  one_hot n a
  = Some (repeat (0 # 1)%Q a ++ (1 # 1)%Q :: repeat (0 # 1)%Q (n - S a)).
Proof.
  intros H. unfold one_hot, one_hot_of.
  apply Nat.ltb_lt in H. rewrite H. reflexivity.
Qed.

Lemma one_hot_none (n : nat) (a : action) :
  (n <= a)%nat -> one_hot n a = None.
Proof.
  intros H. unfold one_hot, one_hot_of.
  apply Nat.ltb_ge in H. rewrite H. reflexivity.
Qed.

Lemma nth_one_hot (a k j : nat) :
  nth j (repeat (0 # 1)%Q a ++ (1 # 1)%Q :: repeat (0 # 1)%Q k) (0 # 1)%Q
  = if (j =? a)%nat then (1 # 1)%Q else (0 # 1)%Q.
Proof.
  revert j. induction a as [|a IH]; intros [|j]; simpl; try reflexivity.
  - destruct j; [|rewrite nth_repeat]; destruct k; reflexivity.
  - apply IH.
Qed.

(* the head of the discounted returns is the discounted sum *)
Lemma discounted_hd (rewards : list Q) (r0 : Q) :
  hd r0 (discounted rewards r0) = discounted_sum rewards r0.
Proof.
  induction rewards as [|r rest IH]; [reflexivity|].
  simpl. rewrite IH. reflexivity.
Qed.

Lemma discounted_skipn (rewards : list Q) (r0 : Q) :
  forall (i : nat) (r : Q),
    nth_error rewards i = Some r ->
    nth_error (discounted rewards r0) i
    = Some (discounted_sum (skipn i rewards) r0).
Proof.
  induction rewards as [|x rest IH]; intros [|i] r H; simpl in *;
    try discriminate.
  - rewrite discounted_hd. reflexivity.
  - eapply IH. exact H.
Qed.

(* the backward pass stops with an IndexError at a record whose action has
   no one-hot vector *)
Lemma returns_loop_invalid (history : list Snapshot) :
  forall (k : nat) (r : Q) (b : Batches),
    (k <= length history)%nat ->
    Exists (fun h => (actor_outputs <= h_action h)%nat) (firstn k history) ->
    returns_loop history (range_down (Z.of_nat k - 1)) r b = None.
Proof.
  induction k as [|k IH]; intros r b Hk Hex.
  - simpl in Hex. inversion Hex.
  - rewrite range_down_succ. cbn [returns_loop].
    rewrite py_getitem_nat by lia.
    destruct (nth_error history k) as [x|] eqn:Ex;
      [|reflexivity].
    rewrite (firstn_succ_nth _ _ _ Ex) in Hex.
    unfold extract_history.
    destruct (Nat.lt_ge_cases (h_action x) actor_outputs) as [Hx|Hx].
    + rewrite one_hot_some by exact Hx.
      destruct b as [[sb ab] rb].
      apply IH; [lia|].
      apply Exists_app in Hex. destruct Hex as [Hex|Hex]; [exact Hex|].
      inversion Hex as [? ? H1|? ? H1]; [simpl in *; lia|inversion H1].
    + rewrite one_hot_none by exact Hx. reflexivity.
Qed.

End Batches.

(** ** Construction of the workers *)

Section Construction.

Import Coordinator.

(* what a successful constructor returns, and on which networks *)
Lemma init_checked_inr (net : Network) (thread_id : Z) (s : Thread) :
  init_checked net thread_id = inr s ->
  s = init (weights_and_biases net) thread_id Device.default
  /\ length (input_shape net) = 3%nat
  /\ actor_output_shape net = [4%nat]
  /\ critic_output_shape net = [1%nat]
  /\ length (weights_and_biases net) = 10%nat.
Proof.
  unfold init_checked.
  destruct (Nat.ltb_spec (length (input_shape net)) 3); [discriminate|].
  destruct (Nat.eqb_spec (length (weights_and_biases net)) 0);
    [discriminate|].
  destruct (Nat.eqb_spec (length (input_shape net)) 3); cbn [negb];
    [|discriminate].
  destruct (list_eq_dec Nat.eq_dec (actor_output_shape net) [4%nat]);
    cbn [negb]; [|discriminate].
  destruct (list_eq_dec Nat.eq_dec (critic_output_shape net) [1%nat]);
    cbn [negb]; [|discriminate].
  destruct (Nat.eqb_spec (length (weights_and_biases net)) 10); cbn [negb];
    [|discriminate].
  intros Hs. injection Hs as <-. repeat split; assumption.
Qed.

Lemma init_checked_fresh (net : Network) (thread_id : Z) (s : Thread) :
  init_checked net thread_id = inr s -> fresh s.
Proof.
  intros H. apply init_checked_inr in H. destruct H as (-> & _).
  repeat split.
Qed.

(* constructors that succeed append their workers in order, and the last
   one's handler is the one installed *)
Lemma build_appends (workers : list (Network * Z)) :
  Forall constructible workers ->
  forall (p : Process),
    exists new,
      build workers p
      = inr (mkProcess (threads p ++ new)
               match workers with
               | [] => sigint p
               | _ => Some (length (threads p) + length workers - 1)%nat
               end)
      /\ length new = length workers
      /\ Forall fresh new.
Proof.
  induction 1 as [|[net thread_id] rest (s & Hs) Hrest IH]; intros p.
  - exists []. rewrite app_nil_r. destruct p. repeat split. constructor.
  - cbn [fst snd] in Hs. cbn [build]. rewrite Hs.
    destruct (IH (mkProcess (threads p ++ [s]) (Some (length (threads p)))))
      as (new & B & L & F).
    cbn [threads sigint] in B.
    exists (s :: new). rewrite B, <- app_assoc.
    split.
    { cbn [app]. f_equal. f_equal. rewrite length_app. cbn [length].
      destruct rest; cbn [length]; f_equal; lia. }
    split; [cbn [length]; lia|].
    constructor; [exact (init_checked_fresh _ _ _ Hs)|exact F].
Qed.

Lemma update_nth_last {A : Type} (f : A -> A) (l : list A) (x : A) :
  update_nth (length l) f (l ++ [x]) = l ++ [f x].
Proof. induction l as [|y l IH]; simpl; congruence. Qed.

Lemma map_stop_fresh (l : list Thread) :
  Forall fresh l -> map stop l = repeat false (length l).
Proof.
  induction 1 as [|s l (_ & _ & Hs & _) Hl IH]; simpl; congruence.
Qed.

End Construction.

(** * The claims *)

(** C1 (code defect).  The claim says the outer loop keeps starting
    iterations while the global step is below the configured maximum
    (global_t_max).  Evaluated on the code: a worker built the way main.py
    builds it, with global_t_max = 10^9, receives that number as its
    thread_id; its guard compares the global step with t_max = 10, so at
    global step 9 it starts an iteration and at global step 10, far below
    10^9 and with the stop flag down, it does not, and run returns without
    any further event. *)
Theorem C1_guard_uses_rollout_horizon :
  forall (C : Collaborators) (network : list Tensor) (thread_num : Z)
         (sh : list Tensor) (o : Opt) (e : Env) (g : Rng) (tr : list event)
         (iterations fuel : nat),
    let worker := main_construct network 1000000000 thread_num in
    let w := mkWorld worker (mkShared sh o 10) e g tr in
    thread_id worker = 1000000000
    /\ stop worker = false
    /\ run_guard 9 worker = true
    /\ run_guard 10 worker = false
    /\ run (S iterations) fuel w = Ok tt w.
Proof.
  intros C network thread_num sh o e g tr iterations fuel worker w.
  repeat split; try reflexivity.
Qed.

(** C2 (code defect).  The claim says the reward of a step record is the
    sum of the clamped rewards of the skip_num sub-steps of that step only.
    Evaluated on the code with an environment that pays 3 (clamped to 1) for
    every action and ends after 8 actions: the rollout records two steps
    with rewards 4 and 8; the second record contains the first step's
    rewards, because the local variable reward is never reset in the loop. *)
Theorem C2_reward_carried_across_steps :
  Toy.rewards_of
    (play_game (C := Toy.collaborators (Some 8%nat)) 20 [0; 0]%nat
       (Toy.world (Some 8%nat)))
  = [4 # 1; 8 # 1]%Q.
Proof. vm_compute. reflexivity. Qed.

(** C3 (amended).  On every batch of valid rows the loss whose gradients are
    accumulated is policy loss + 0.5 * value loss with
    policy loss = - sum log(pi(a|s)) (R - V(s))
                  + beta * sum_s sum_a pi(a|s) log(pi(a|s) + eps),
    beta = 0.01, eps = 1e-10, and value loss = sum (R - V(s))^2: the beta
    term is beta times the negated, eps-guarded entropy, so that minimising
    the loss rewards high-entropy policies. *)
Theorem C3_total_loss :
  forall (n : nat) (rows : list Loss.Row),
    Forall (valid_row n) rows ->
    Loss.beta = (1 / 100)%R
    /\ Loss.eps = (/ 10 ^ 10)%R
    /\ Loss.loss_of_rows n rows = Some (Loss.graph_total_loss rows)
    /\ Loss.graph_total_loss rows
       = ((- Loss.reduce_sum
               (map (fun r => ln (Loss.prob_of r) * (Loss.ret r - Loss.v r))
                    rows)
           - Loss.beta
             * Loss.reduce_sum
                 (map (fun r =>
                         - Loss.reduce_sum
                             (map (fun x => x * ln (x + Loss.eps))
                                  (Loss.probs r)))
                      rows))
          + (1 / 2)
            * Loss.reduce_sum
                (map (fun r => (Loss.ret r - Loss.v r)
                               * (Loss.ret r - Loss.v r)) rows))%R.
Proof.
  intros n rows Hv. split; [reflexivity|]. split; [reflexivity|].
  split; [apply loss_of_rows_valid; exact Hv|].
  unfold Loss.graph_total_loss.
  assert (Hneg : forall (f : Loss.Row -> R) (l : list Loss.Row),
             Loss.reduce_sum (map (fun r => (- f r)%R) l)
             = (- Loss.reduce_sum (map f l))%R).
  { intros f l. induction l as [|x l IH]; simpl; [Lra.lra|].
    rewrite IH. Lra.lra. }
  rewrite Hneg. ring.
Qed.

Lemma uniform_row_valid : valid_row 4 Loss.uniform_row.
Proof.
  unfold valid_row, Loss.uniform_row, Loss.prob_of. simpl.
  split; [reflexivity|]. split; [lia|].
  split; [repeat constructor; Lra.lra|Lra.lra].
Qed.

Lemma C3_total_loss_witness :
  Forall (valid_row 4) [Loss.uniform_row]
  /\ Loss.beta = (1 / 100)%R
  /\ Loss.eps = (/ 10 ^ 10)%R
  /\ Loss.loss_of_rows 4 [Loss.uniform_row]
     = Some (Loss.graph_total_loss [Loss.uniform_row])
  /\ Loss.graph_total_loss [Loss.uniform_row]
     = ((- Loss.reduce_sum
             (map (fun r => ln (Loss.prob_of r) * (Loss.ret r - Loss.v r))
                  [Loss.uniform_row])
         - Loss.beta
           * Loss.reduce_sum
               (map (fun r =>
                       - Loss.reduce_sum
                           (map (fun x => x * ln (x + Loss.eps))
                                (Loss.probs r)))
                    [Loss.uniform_row]))
        + (1 / 2)
          * Loss.reduce_sum
              (map (fun r => (Loss.ret r - Loss.v r)
                             * (Loss.ret r - Loss.v r))
                   [Loss.uniform_row]))%R.
Proof.
  assert (H : Forall (valid_row 4) [Loss.uniform_row])
    by (repeat constructor; apply uniform_row_valid).
  split; [exact H|].
  exact (C3_total_loss 4 [Loss.uniform_row] H).
Defined.

(* On the uniform policy with zero advantage the graph's loss is
   0.01 * ln(1/4 + eps) < 0, while the loss with beta times the entropy, as
   the specification words it, is - 0.01 * ln(1/4) > 0. *)
Lemma C3_counterexample :
  Loss.loss_of_rows 4 [Loss.uniform_row]
  <> Some (Loss.spec_total_loss [Loss.uniform_row]).
Proof.
  rewrite loss_of_rows_valid
    by (repeat constructor; apply uniform_row_valid).
  intros H. injection H as H.
  assert (H1 : (ln (1 / 4 + Loss.eps) < 0)%R).
  { rewrite <- ln_1. apply ln_increasing.
    - pose proof eps_pos. Lra.lra.
    - assert (Loss.eps < 1 / 2)%R; [|Lra.lra].
      unfold Loss.eps. rewrite <- (Rinv_inv (1 / 2)).
      apply Rinv_lt_contravar; [|simpl; Lra.lra].
      apply Rmult_lt_0_compat; [Lra.lra|]. apply pow_lt. Lra.lra. }
  assert (H2 : (ln (1 / 4) < 0)%R).
  { rewrite <- ln_1. apply ln_increasing; Lra.lra. }
  unfold Loss.graph_total_loss, Loss.spec_total_loss, Loss.spec_entropy,
    Loss.uniform_row, Loss.prob_of, Loss.beta in H.
  simpl in H. Lra.lra.
Qed.

(** C4 (code defect).  The claim says every logarithm of a policy
    probability in the loss is guarded by eps, the log(pi(a|s)) factor of
    the policy-gradient term in particular.  Evaluated on the code for a
    row whose policy gives probability 0 to the action taken: the guarded
    log_pi is finite, but pi_a_s is 0 and log_pi_a_s takes the logarithm of
    it without eps, so log_pi_a_s and with it the loss are not finite. *)
Theorem C4_policy_log_unguarded :
  Loss.log_pi [Loss.probs Loss.zero_prob_row]
  = Some [[ln (0 + Loss.eps); ln (1 + Loss.eps);
           ln (0 + Loss.eps); ln (0 + Loss.eps)]]%R
  /\ Forall (fun x => x = 0%R)
            (Loss.pi_a_s [Loss.probs Loss.zero_prob_row]
                         [Loss.action_row 4 Loss.zero_prob_row])
  /\ Loss.tf_log 0 = None
  /\ Loss.log_pi_a_s [Loss.probs Loss.zero_prob_row]
                     [Loss.action_row 4 Loss.zero_prob_row] = None
  /\ Loss.loss_of_rows 4 [Loss.zero_prob_row] = None.
Proof.
  split.
  { rewrite log_pi_guarded; [reflexivity|].
    repeat constructor; simpl; Lra.lra. }
  split.
  { repeat constructor. simpl. Lra.lra. }
  split; [apply tf_log_nonpos; Lra.lra|].
  split.
  { unfold Loss.log_pi_a_s. apply log_col_singular.
    constructor. simpl. Lra.lra. }
  apply loss_of_rows_singular.
  - repeat constructor.
  - constructor. unfold Loss.prob_of. simpl. Lra.lra.
Qed.

(** C5 (code defect).  The claim says an interrupt raises, on every worker,
    the stop flag that the worker's loop guard reads.  Evaluated on the code
    for two workers built by the constructor, each on a network that it
    accepts: the handler installed for SIGINT is the signal_handler of the
    worker constructed last, so a SIGINT raises the stop flag of that worker
    only and the first worker's guard still lets iterations start; the
    except clause of the join loop sets kill_received on every worker, an
    attribute no guard reads, and leaves both stop flags down. *)
Theorem C5_interrupt_stops_last_worker_only :
  forall (n1 n2 : Network) (id1 id2 : Z) (s1 s2 : Thread),
    init_checked n1 id1 = inr s1 ->
    init_checked n2 id2 = inr s2 ->
    exists p,
      Coordinator.build [(n1, id1); (n2, id2)] Coordinator.start = inr p
      /\ Coordinator.threads p = [s1; s2]
      /\ map stop (Coordinator.threads p) = [false; false]
      /\ Coordinator.sigint p = Some 1%nat
      /\ map stop (Coordinator.threads (Coordinator.deliver_sigint p))
         = [false; true]
      /\ Coordinator.still_running 0 (Coordinator.deliver_sigint p)
         = [true; false]
      /\ map stop (Coordinator.threads (Coordinator.keyboard_interrupt p))
         = [false; false]
      /\ map kill_received
             (Coordinator.threads (Coordinator.keyboard_interrupt p))
         = [Some true; Some true]
      /\ Coordinator.still_running 0 (Coordinator.keyboard_interrupt p)
         = [true; true].
Proof.
  intros n1 n2 id1 id2 s1 s2 H1 H2.
  exists (Coordinator.mkProcess [s1; s2] (Some 1%nat)).
  split.
  { cbn [Coordinator.build]. rewrite H1.
    cbn [Coordinator.build Coordinator.threads Coordinator.start app length].
    rewrite H2. reflexivity. }
  apply init_checked_inr in H1. destruct H1 as (-> & _).
  apply init_checked_inr in H2. destruct H2 as (-> & _).
  repeat split.
Qed.

(* two workers on the toy network *)
Lemma C5_interrupt_stops_last_worker_only_witness :
  (init_checked Toy.network 0 = inr (Toy.worker 0)
   /\ init_checked Toy.network 1 = inr (Toy.worker 1))
  /\ exists p,
       Coordinator.build [(Toy.network, 0); (Toy.network, 1)]
         Coordinator.start = inr p
       /\ Coordinator.threads p = [Toy.worker 0; Toy.worker 1]
       /\ map stop (Coordinator.threads p) = [false; false]
       /\ Coordinator.sigint p = Some 1%nat
       /\ map stop (Coordinator.threads (Coordinator.deliver_sigint p))
          = [false; true]
       /\ Coordinator.still_running 0 (Coordinator.deliver_sigint p)
          = [true; false]
       /\ map stop (Coordinator.threads (Coordinator.keyboard_interrupt p))
          = [false; false]
       /\ map kill_received
              (Coordinator.threads (Coordinator.keyboard_interrupt p))
          = [Some true; Some true]
       /\ Coordinator.still_running 0 (Coordinator.keyboard_interrupt p)
          = [true; true].
Proof.
  assert (H1 : init_checked Toy.network 0 = inr (Toy.worker 0))
    by reflexivity.
  assert (H2 : init_checked Toy.network 1 = inr (Toy.worker 1))
    by reflexivity.
  split; [split; assumption|].
  exact (C5_interrupt_stops_last_worker_only Toy.network Toy.network 0 1
           (Toy.worker 0) (Toy.worker 1) H1 H2).
Defined.


Section OrderWitness.

#[local] Existing Instance Toy.end_after_8.



End OrderWitness.

(** C7.  After a rollout segment, the seed of the return computation is 0
    when the environment is in an end state, whatever the value function
    says, and the value estimate of the last observed state otherwise; the
    last observed state is the last recorded state without its oldest frame
    and with the frame that the environment returned for the last action.
    Put in time order, the batches pair the i-th state, the one-hot vector
    of the i-th action (actor_outputs entries, 1 at the action and 0
    elsewhere) and the return R_i = r_i + gamma * R_(i+1), where the return
    after the last step is the seed and gamma = 0.99; rewards [1, 1, 1] with
    seed 0 give the returns [2.9701, 1.99, 1.0]. *)
Theorem C7_returns_recursion :
  forall (C : Collaborators) (fuel : nat) (initial_state : list Screen)
         (w : World) history last_state (w' : World),
    t (self w) = t_start (self w) ->
    play_game fuel initial_state w = Ok (history, last_state) w' ->
    Forall (fun h => (h_action h < actor_outputs)%nat) history ->
    exists r0 states_batch action_batch reward_batch,
      gamma = (99 # 100)%Q
      /\ bootstrap last_state w' = Ok r0 w'
      /\ return_computation history last_state w'
         = Ok (states_batch, action_batch, reward_batch) w'
      /\ (env_is_end_state (environment w') = true ->
          last_state = None /\ r0 = (0 # 1)%Q)
      /\ (env_is_end_state (environment w') = false ->
          exists s pre h scr e r,
            last_state = Some s
            /\ r0 = net_value (local_weights (self w')) s
            /\ history = pre ++ [h]
            /\ s = tl (h_state h) ++ [scr]
            /\ env_act (h_action h) e = (r, scr, environment w'))
      /\ (forall (i : nat) (h : Snapshot),
            nth_error history i = Some h ->
            nth_error (rev states_batch) i = Some (h_state h)
            /\ one_hot actor_outputs (h_action h)
               = Some (nth i (rev action_batch) [])
            /\ (exists v,
                  nth_error (rev action_batch) i = Some v
                  /\ length v = actor_outputs
                  /\ forall j,
                       nth j v (0 # 1)%Q
                       = if (j =? h_action h)%nat
                         then (1 # 1)%Q else (0 # 1)%Q)
            /\ nth_error (rev reward_batch) i
               = Some [(h_reward h
                        + gamma * nth (S i) (concat (rev reward_batch)) r0)%Q])
      /\ (forall (s : State) (a : action),
            (a < actor_outputs)%nat ->
            let h := mkSnapshot s a (1 # 1)%Q in
            exists sb ab rb,
              returns_loop [h; h; h] (range_down 2) (0 # 1)%Q ([], [], [])
              = Some (sb, ab, rb)
              /\ Forall2 Qeq (concat (rev rb))
                         [29701 # 10000; 199 # 100; 1 # 1]%Q).
Proof.
  intros C fuel initial_state w history last_state w' Ht E Hv.
  pose proof E as E'. apply play_game_last in E'; [|unfold t_max; lia].
  destruct E' as [_ Hlast].
  apply play_game_frame in E.
  destruct E as (acts & (_ & _ & K & B & _) & _ & Hl & _).
  cbn [log self] in K, B.
  assert (Hd : t (self w') - t_start (self w') = Z.of_nat (length history))
    by lia.
  set (r0 := match last_state with
             | None => (0 # 1)%Q
             | Some s => net_value (local_weights (self w')) s
             end).
  exists r0, (map h_state (rev history)), (map action_vector (rev history)),
    (map (fun x => [x]) (running (map h_reward (rev history)) r0)).
  split; [reflexivity|].
  split; [destruct last_state; reflexivity|].
  split; [apply return_computation_spec; assumption|].
  split.
  { intros He. apply Hl in He. subst last_state. split; reflexivity. }
  split.
  { intros He. destruct last_state as [s|].
    - destruct (Hlast s eq_refl) as (pre & h & scr & e & r & Hh & Hs & Ha).
      exists s, pre, h, scr, e, r. repeat split; assumption.
    - destruct Hl as [Hl _]. rewrite (Hl eq_refl) in He. discriminate He. }
  assert (Hr : rev (map (fun x => [x])
                        (running (map h_reward (rev history)) r0))
               = map (fun x => [x]) (discounted (map h_reward history) r0)).
  { rewrite <- map_rev. f_equal.
    rewrite map_rev. apply running_rev. }
  assert (Hc : forall l : list Q, concat (map (fun x => [x]) l) = l).
  { induction l as [|x l IH]; simpl; congruence. }
  split.
  { intros i h Hi.
    assert (Hlt : (h_action h < actor_outputs)%nat).
    { rewrite Forall_forall in Hv. apply Hv.
      eapply nth_error_In; eauto. }
    assert (Hrow : nth_error (rev (map action_vector (rev history))) i
                   = Some (action_vector h)).
    { rewrite <- map_rev, rev_involutive, nth_error_map, Hi. reflexivity. }
    rewrite Hr, Hc.
    split.
    { rewrite <- map_rev, rev_involutive, nth_error_map, Hi. reflexivity. }
    split.
    { rewrite one_hot_action_vector by exact Hlt.
      f_equal. symmetry. apply nth_error_nth. exact Hrow. }
    split.
    { exists (action_vector h). split; [exact Hrow|].
      unfold action_vector. rewrite (one_hot_some _ _ Hlt).
      split.
      - rewrite length_app. cbn [length]. rewrite !repeat_length. lia.
      - intros j. apply nth_one_hot. }
    rewrite nth_error_map.
    rewrite (discounted_nth _ r0 i (h_reward h)).
    - reflexivity.
    - rewrite nth_error_map, Hi. reflexivity. }
  intros s a Ha h.
  assert (Hh : Forall (fun h => (h_action h < actor_outputs)%nat) [h; h; h])
    by (repeat constructor; exact Ha).
  pose proof (returns_loop_spec [h; h; h] Hh 3%nat (0 # 1)%Q [] [] []
                (le_n 3)) as Hs.
  simpl in Hs.
  change (Z.pos 3 - 1) with 2 in Hs.
  eexists; eexists; eexists. split; [exact Hs|].
  simpl. repeat constructor; reflexivity.
Qed.

Section NeverEnds.

#[local] Existing Instance Toy.never_ends.

(* the rollout of the toy world that never ends: ten records and a last
   state *)
Lemma C7_returns_recursion_witness :
  (t (self (Toy.world None)) = t_start (self (Toy.world None))
   /\ play_game 20 [0; 0]%nat (Toy.world None)
      = Ok (Toy.history10, Toy.last_state10) Toy.world10
   /\ Forall (fun h => (h_action h < actor_outputs)%nat) Toy.history10)
  /\ exists r0 states_batch action_batch reward_batch,
       gamma = (99 # 100)%Q
       /\ bootstrap Toy.last_state10 Toy.world10 = Ok r0 Toy.world10
       /\ return_computation Toy.history10 Toy.last_state10 Toy.world10
          = Ok (states_batch, action_batch, reward_batch) Toy.world10
       /\ (env_is_end_state (environment Toy.world10) = true ->
           Toy.last_state10 = None /\ r0 = (0 # 1)%Q)
       /\ (env_is_end_state (environment Toy.world10) = false ->
           exists s pre h scr e r,
             Toy.last_state10 = Some s
             /\ r0 = net_value (local_weights (self Toy.world10)) s
             /\ Toy.history10 = pre ++ [h]
             /\ s = tl (h_state h) ++ [scr]
             /\ env_act (h_action h) e = (r, scr, environment Toy.world10))
       /\ (forall (i : nat) (h : Snapshot),
             nth_error Toy.history10 i = Some h ->
             nth_error (rev states_batch) i = Some (h_state h)
             /\ one_hot actor_outputs (h_action h)
                = Some (nth i (rev action_batch) [])
             /\ (exists v,
                   nth_error (rev action_batch) i = Some v
                   /\ length v = actor_outputs
                   /\ forall j,
                        nth j v (0 # 1)%Q
                        = if (j =? h_action h)%nat
                          then (1 # 1)%Q else (0 # 1)%Q)
             /\ nth_error (rev reward_batch) i
                = Some [(h_reward h
                         + gamma * nth (S i) (concat (rev reward_batch)) r0)%Q])
       /\ (forall (s : State) (a : action),
             (a < actor_outputs)%nat ->
             let h := mkSnapshot s a (1 # 1)%Q in
             exists sb ab rb,
               returns_loop [h; h; h] (range_down 2) (0 # 1)%Q ([], [], [])
               = Some (sb, ab, rb)
               /\ Forall2 Qeq (concat (rev rb))
                          [29701 # 10000; 199 # 100; 1 # 1]%Q).
Proof.
  assert (H1 : t (self (Toy.world None)) = t_start (self (Toy.world None)))
    by reflexivity.
  assert (H2 : play_game 20 [0; 0]%nat (Toy.world None)
               = Ok (Toy.history10, Toy.last_state10) Toy.world10)
    by (vm_compute; reflexivity).
  assert (H3 : Forall (fun h => (h_action h < actor_outputs)%nat)
                      Toy.history10)
    by (repeat constructor).
  split; [repeat split; assumption|].
  exact (C7_returns_recursion Toy.never_ends 20 [0; 0]%nat
           (Toy.world None) Toy.history10 Toy.last_state10 Toy.world10
           H1 H2 H3).
Defined.

End NeverEnds.


Section HorizonWitness.

#[local] Existing Instance Toy.end_after_8.


End HorizonWitness.

(** C9.  The gradients that update_shared_gradients hands to the shared
    store's apply step are the accumulated gradients clipped element by
    element into [-40, 40]: the apply event and the new shared store are
    those of clipped_grads of the accumulator, tensor shapes are kept, every
    clipped element lies in [-40, 40], an element below -40 becomes -40, an
    element above 40 becomes 40, and an element inside the interval is
    unchanged. *)
Theorem C9_applied_gradients_clipped :
  forall (C : Collaborators) (w : World),
    let grads := local_grads (self w) in
    exists w',
      update_shared_gradients w = Ok tt w'
      /\ trace w' = trace w ++ [EvApply (clipped_grads grads)]
      /\ shared_network w'
         = apply_gradients (clipped_grads grads) (shared_network w)
      /\ length (clipped_grads grads) = length grads
      /\ forall (i : nat) (tensor : Tensor),
           nth_error grads i = Some tensor ->
           exists clipped,
             nth_error (clipped_grads grads) i = Some clipped
             /\ length clipped = length tensor
             /\ forall (j : nat) (x : Q),
                  nth_error tensor j = Some x ->
                  exists y,
                    nth_error clipped j = Some y
                    /\ (- (40 # 1) <= y)%Q /\ (y <= 40 # 1)%Q
                    /\ ((x < - (40 # 1))%Q -> y = (- (40 # 1))%Q)
                    /\ ((40 # 1 < x)%Q -> y = (40 # 1)%Q)
                    /\ ((- (40 # 1) <= x)%Q -> (x <= 40 # 1)%Q -> y = x).
Proof.
  intros C w grads.
  eexists. split; [reflexivity|]. split; [reflexivity|].
  split; [reflexivity|]. split; [apply length_map|].
  intros i tensor Hi.
  exists (clip_by_value tensor (- grad_clip) grad_clip).
  split; [unfold clipped_grads; rewrite nth_error_map, Hi; reflexivity|].
  split; [apply length_map|].
  intros j x Hj.
  exists (Qmax (Qmin x grad_clip) (- grad_clip)).
  split; [apply clip_by_value_nth; exact Hj|].
  apply clip_element.
Qed.

(** C10 (amended).  Every completed iteration of the outer loop applies
    gradients to the shared store exactly once and advances the global step
    by one: the apply is one optimizer step on the shared weights with the
    clipped accumulator.  An iteration whose environment is in an end state
    right after the reset does not complete: its rollout records no step,
    the bootstrap value is 0, the batches are empty, and feeding the empty
    batches to the accumulation raises ValueError, so that nothing is
    accumulated or applied and the shared store is as the iteration found
    it. *)
Theorem C10_one_apply_per_iteration :
  forall (C : Collaborators) (fuel : nat) (w : World),
    (forall w',
        run_iteration fuel w = Ok tt w' ->
        shared_counter (shared_network w')
        = shared_counter (shared_network w) + 1
        /\ exists new g,
             trace w' = trace w ++ new
             /\ filter is_apply new = [EvApply g]
             /\ g = clipped_grads (local_grads (self w'))
             /\ (shared_weights (shared_network w'),
                 opt_state (shared_network w'))
                = optimizer_step g (shared_weights (shared_network w),
                                    opt_state (shared_network w))
             /\ shared_network w' = apply_gradients g (shared_network w))
    /\ ((1 <= num_channels <= 256)%nat ->
        (num_channels <= fuel)%nat ->
        (forall e, env_is_end_state (env_reset e) = true) ->
        run_iteration fuel w = Raise ValueError
        /\ exists initial_state w1 w2,
             get_initial_state fuel (before_warmup w) = Ok initial_state w1
             /\ play_game fuel initial_state (before_rollout w1)
                = Ok ([], None) w2
             /\ bootstrap None w2 = Ok (0 # 1)%Q w2
             /\ return_computation [] None w2 = Ok ([], [], []) w2
             /\ accumulate_gradients [] [] [] w2 = Raise ValueError
             /\ filter is_apply (trace w2) = filter is_apply (trace w)
             /\ shared_network w2 = shared_network w).
Proof.
  intros C fuel w. split.
  - intros w' H.
    destruct (run_iteration_trace fuel w w' H)
      as (warm & rollout & sb & ab & rb & T & _ & S).
    split; [rewrite S; apply apply_gradients_counter|].
    eexists. exists (clipped_grads (local_grads (self w'))).
    split; [exact T|]. split; [|split; [reflexivity|split; [|exact S]]].
    + cbn [app filter is_apply].
      rewrite filter_app, filter_is_apply_acts. cbn [app filter is_apply].
      rewrite filter_app, filter_is_apply_acts. reflexivity.
    + rewrite S at 1 2. apply apply_gradients_step.
  - intros Hn Hnf Hend.
    destruct (before_warmup_facts w) as (T0 & S0 & K0 & B0 & G0).
    destruct (get_initial_state_total fuel (before_warmup w) Hn Hnf)
      as (initial_state & w1 & E1).
    assert (E2 : play_game fuel initial_state (before_rollout w1)
                 = Ok ([], None) (log EvPlayGame (before_rollout w1))).
    { apply play_game_end_state; [lia|]. apply Hend. }
    destruct (rollout_facts _ _ _ _ _ _ _ E1 E2)
      as (warm & rollout & T2 & _ & _ & S2 & Hd & _).
    assert (E3 : return_computation [] None
                   (log EvPlayGame (before_rollout w1))
                 = Ok ([], [], []) (log EvPlayGame (before_rollout w1))).
    { rewrite (return_computation_spec [] None _ (Forall_nil _) Hd).
      reflexivity. }
    split.
    { rewrite (run_iteration_parts _ _ _ _ _ _ _ _ _ _ E1 E2 E3).
      reflexivity. }
    exists initial_state, w1, (log EvPlayGame (before_rollout w1)).
    split; [exact E1|]. split; [exact E2|].
    split; [reflexivity|]. split; [exact E3|].
    split; [reflexivity|]. split; [|exact S2].
    rewrite T2. rewrite !filter_app, !filter_is_apply_acts.
    cbn [filter is_apply app]. rewrite app_nil_r. reflexivity.
Qed.

(* a completed iteration of the toy environment that ends after 8 actions,
   and an iteration of the one that is in an end state at once *)
Lemma C10_one_apply_per_iteration_witness :
  (run_iteration (C := Toy.end_after_8) 20 (Toy.world (Some 8%nat))
   = Ok tt Toy.after_iteration8
   /\ (1 <= @num_channels Toy.end_at_once <= 256)%nat
   /\ (@num_channels Toy.end_at_once <= 20)%nat
   /\ (forall e, @env_is_end_state Toy.end_at_once
                   (@env_reset Toy.end_at_once e) = true))
  /\ (shared_counter (shared_network Toy.after_iteration8)
      = shared_counter (shared_network (Toy.world (Some 8%nat))) + 1
      /\ exists new g,
           trace Toy.after_iteration8
           = trace (Toy.world (Some 8%nat)) ++ new
           /\ filter is_apply new = [EvApply g]
           /\ g = clipped_grads (local_grads (self Toy.after_iteration8))
           /\ (shared_weights (shared_network Toy.after_iteration8),
               opt_state (shared_network Toy.after_iteration8))
              = optimizer_step g
                  (shared_weights (shared_network (Toy.world (Some 8%nat))),
                   opt_state (shared_network (Toy.world (Some 8%nat))))
           /\ shared_network Toy.after_iteration8
              = apply_gradients g (shared_network (Toy.world (Some 8%nat))))
  /\ (run_iteration (C := Toy.end_at_once) 20 (Toy.world (Some 0%nat))
      = Raise ValueError
      /\ exists initial_state w1 w2,
           get_initial_state (C := Toy.end_at_once) 20
             (before_warmup (Toy.world (Some 0%nat)))
           = Ok initial_state w1
           /\ play_game 20 initial_state (before_rollout w1)
              = Ok ([], None) w2
           /\ bootstrap None w2 = Ok (0 # 1)%Q w2
           /\ return_computation [] None w2 = Ok ([], [], []) w2
           /\ accumulate_gradients [] [] [] w2 = Raise ValueError
           /\ filter is_apply (trace w2)
              = filter is_apply (trace (Toy.world (Some 0%nat)))
           /\ shared_network w2 = shared_network (Toy.world (Some 0%nat))).
Proof.
  assert (H0 : run_iteration (C := Toy.end_after_8) 20
                 (Toy.world (Some 8%nat)) = Ok tt Toy.after_iteration8)
    by (vm_compute; reflexivity).
  assert (H1 : (1 <= @num_channels Toy.end_at_once <= 256)%nat)
    by (simpl; lia).
  assert (H2 : (@num_channels Toy.end_at_once <= 20)%nat) by (simpl; lia).
  assert (H3 : forall e, @env_is_end_state Toy.end_at_once
                           (@env_reset Toy.end_at_once e) = true)
    by (intros e; reflexivity).
  split; [repeat split; try assumption; lia|].
  split.
  - exact (proj1 (C10_one_apply_per_iteration Toy.end_after_8 20
                    (Toy.world (Some 8%nat))) Toy.after_iteration8 H0).
  - exact (proj2 (C10_one_apply_per_iteration Toy.end_at_once 20
                    (Toy.world (Some 0%nat))) H1 H2 H3).
Defined.

(* The iteration of the toy world whose environment is in an end state
   right after the reset does not complete and applies nothing: it raises
   ValueError. *)
Lemma C10_counterexample :
  run_iteration (C := Toy.end_at_once) 20 (Toy.world (Some 0%nat))
  = Raise ValueError
  /\ forall w',
       run_iteration (C := Toy.end_at_once) 20 (Toy.world (Some 0%nat))
       <> Ok tt w'.
Proof.
  assert (H : run_iteration (C := Toy.end_at_once) 20
                (Toy.world (Some 0%nat)) = Raise ValueError)
    by (vm_compute; reflexivity).
  split; [exact H|]. intros w' E. rewrite H in E. discriminate E.
Qed.

(** * Further properties of the worker *)

Section Rollout.

Context {C : Collaborators}.

(* the clamp of an intermediate reward *)
Lemma np_clip_unit (x : Q) :
  (- (1 # 1) <= np_clip x (- (1 # 1)) (1 # 1))%Q
  /\ (np_clip x (- (1 # 1)) (1 # 1) <= 1 # 1)%Q.
Proof.
  unfold np_clip.
  destruct (Q.min_spec (Qmax x (- (1 # 1))) (1 # 1)) as [[H1 H2]|[H1 H2]];
    destruct (Q.max_spec x (- (1 # 1))) as [[H3 H4]|[H3 H4]];
    rewrite H2; try rewrite H4 in *; split; Lqa.lra.
Qed.

(* the reward after [n] repeats of an action is within [n] of the reward
   before them *)
Lemma act_repeat_reward (n : nat) (a : action) :
  forall (reward : Q) (ns : option Screen) (w : World) reward' ns' w',
    act_repeat n a reward ns w = Ok (reward', ns') w' ->
    (reward - inject_Z (Z.of_nat n) <= reward')%Q
    /\ (reward' <= reward + inject_Z (Z.of_nat n))%Q.
Proof.
  induction n as [|n IH]; intros reward ns w reward' ns' w' H.
  - simpl in H. unfold ret in H. injection H as <- _ _.
    simpl. unfold inject_Z. split; Lqa.lra.
  - cbn [act_repeat] in H. unfold bind at 1 in H.
    destruct (act_frame a w) as (r & scr & w1 & E1 & _). rewrite E1 in H.
    apply IH in H. destruct (np_clip_unit r) as [L U].
    rewrite Nat2Z.inj_succ. unfold Z.succ. rewrite inject_Z_plus.
    change (inject_Z 1) with (1 # 1)%Q.
    destruct H as [H1 H2]. split; Lqa.lra.
Qed.

(** What the rollout loop records: [skip_num] environment actions per
    record, observations that slide by one frame per step, and rewards that
    move by at most [skip_num] from one record to the next. *)
Lemma play_game_loop_records (fuel : nat) (av : list action) :
  forall history ns reward w history' ns' reward' w',
    play_game_loop fuel av history ns reward w
      = Ok (history', ns', reward') w' ->
    exists new acts,
      history' = history ++ new
      /\ trace w' = trace w ++ map EvAct acts
      /\ length acts = (skip_num * length new)%nat
      /\ sliding ns (map h_state new) ns'
      /\ reward_steps (inject_Z (Z.of_nat skip_num)) reward
                      (map h_reward new).
Proof.
  induction fuel as [|fuel IH];
    intros history ns reward w history' ns' reward' w' H;
    cbn [play_game_loop] in H.
  - discriminate H.
  - unfold bind at 1 in H. unfold is_end_state at 1 in H.
    unfold bind at 1 in H. unfold get at 1 in H.
    destruct (Bool.eqb (env_is_end_state (environment w)) false
              && negb (t (self w) - t_start (self w) =? t_max)) eqn:Eg.
    2:{ unfold ret in H. injection H as <- <- <- <-.
        exists [], []. rewrite !app_nil_r.
        repeat split; reflexivity. }
    unfold bind at 1 in H. unfold run_pi at 1 in H.
    unfold bind at 1 in H.
    destruct (select_action_frame av (net_pi (local_weights (self w)) ns) w)
      as (w1 & E1 & F1 & V1).
    rewrite E1 in H.
    set (a := fst (random_choice_p av (net_pi (local_weights (self w)) ns)
                     (rng w))) in *.
    unfold bind at 1 in H.
    destruct (act_repeat_frame skip_num a (reward + (0 # 1))%Q None w1)
      as (rw & nscr & w2 & E2 & F2 & N2).
    rewrite E2 in H.
    destruct nscr as [scr|]; [|specialize (N2 eq_refl); discriminate N2].
    unfold bind at 1 in H. simpl lift_option in H. unfold ret at 1 in H.
    unfold bind at 1 in H. unfold modify at 1 in H.
    apply IH in H. destruct H as (new & acts & Hh & T & L & Hs & Hr).
    exists (mkSnapshot ns a rw :: new), (repeat a skip_num ++ acts).
    split; [rewrite Hh, <- app_assoc; reflexivity|].
    split.
    { destruct (frame_trans _ _ _ _ _ _ _ F1 F2) as (T12 & _).
      rewrite T. cbn [trace set_self]. rewrite T12. cbn [app].
      rewrite map_app, app_assoc. reflexivity. }
    split.
    { rewrite length_app, repeat_length, L. cbn [length]. lia. }
    split.
    { cbn [map sliding h_state]. split; [reflexivity|].
      exists scr. exact Hs. }
    cbn [map reward_steps h_reward].
    destruct (act_repeat_reward _ _ _ _ _ _ _ _ E2) as [L1 L2].
    split; [Lqa.lra|]. split; [Lqa.lra|exact Hr].
Qed.

(* a frame stack that slides keeps its number of frames *)
Lemma sliding_length (states : list State) :
  forall (s next : State),
    s <> [] ->
    sliding s states next ->
    Forall (fun x => length x = length s) states /\ length next = length s.
Proof.
  induction states as [|s1 rest IH]; intros s next Hs H; simpl in H.
  - subst next. split; [constructor|reflexivity].
  - destruct H as (-> & scr & H).
    assert (Hl : length (tl s ++ [scr]) = length s).
    { destruct s as [|x s]; [contradiction|].
      rewrite length_app. simpl. lia. }
    apply IH in H.
    + destruct H as [H1 H2]. rewrite Hl in H2. split; [|exact H2].
      constructor; [reflexivity|].
      eapply Forall_impl; [|exact H1]. intros y Hy. congruence.
    + intros E. rewrite E in Hl. destruct s; [contradiction|discriminate].
Qed.

Lemma sliding_nth (states : list State) :
  forall (s next : State),
    sliding s states next ->
    (forall x, nth_error states 0 = Some x -> x = s)
    /\ (forall i x y,
          nth_error states i = Some x ->
          nth_error states (S i) = Some y ->
          exists scr, y = tl x ++ [scr]).
Proof.
  induction states as [|s1 rest IH]; intros s next H; simpl in H.
  - split; intros; [discriminate|]. destruct i; discriminate.
  - destruct H as (-> & scr & H). apply IH in H. destruct H as [H0 HS].
    split.
    + intros x Hx. simpl in Hx. congruence.
    + intros [|i] x y Hx Hy; simpl in Hx, Hy.
      * injection Hx as <-. exists scr. apply H0. exact Hy.
      * eapply HS; eauto.
Qed.

Lemma reward_steps_bound (b : Q) (rewards : list Q) :
  (0 <= b)%Q ->
  forall (r : Q) (i : nat) (x : Q),
    reward_steps b r rewards ->
    nth_error rewards i = Some x ->
    (r - b * inject_Z (Z.of_nat (S i)) <= x)%Q
    /\ (x <= r + b * inject_Z (Z.of_nat (S i)))%Q.
Proof.
  intros Hb. induction rewards as [|r1 rest IH]; intros r i x H Hi.
  - destruct i; discriminate.
  - simpl in H. destruct H as (L & U & H).
    destruct i as [|i]; simpl in Hi.
    + injection Hi as <-. change (inject_Z (Z.of_nat 1)) with (1 # 1)%Q.
      split; Lqa.lra.
    + destruct (IH r1 i x H Hi) as [L' U'].
      rewrite (Nat2Z.inj_succ (S i)). unfold Z.succ.
      rewrite inject_Z_plus. change (inject_Z 1) with (1 # 1)%Q.
      split; Lqa.lra.
Qed.

(** The rollout as a whole. *)
Lemma play_game_records (fuel : nat) (initial_state : list Screen) :
  forall w history last_state w',
    play_game fuel initial_state w = Ok (history, last_state) w' ->
    exists acts next,
      trace w' = trace w ++ EvPlayGame :: map EvAct acts
      /\ length acts = (skip_num * length history)%nat
      /\ sliding initial_state (map h_state history) next
      /\ (forall s, last_state = Some s -> s = next)
      /\ reward_steps (inject_Z (Z.of_nat skip_num)) (0 # 1)%Q
                      (map h_reward history).
Proof.
  intros w history last_state w' H.
  unfold play_game in H.
  unfold bind at 1 in H. unfold modify at 1 in H.
  unfold bind at 1 in H. unfold available_actions at 1 in H.
  unfold bind at 1 in H.
  destruct (play_game_loop fuel _ [] initial_state (0 # 1)%Q
              (log EvPlayGame w)) as [[[h ns] rw] w1| |] eqn:E;
    try discriminate H.
  apply play_game_loop_records in E.
  destruct E as (new & acts & Hh & T & L & Hs & Hr).
  simpl in Hh. subst h.
  unfold bind at 1 in H. unfold is_end_state at 1 in H. unfold ret in H.
  injection H as <- <- <-.
  exists acts, ns. split.
  { rewrite T. cbn [trace log]. rewrite <- app_assoc. reflexivity. }
  split; [exact L|]. split; [exact Hs|]. split; [|exact Hr].
  intros s Hs'. destruct (env_is_end_state (environment w1));
    [discriminate|congruence].
Qed.

End Rollout.

(** X1.  The observations of a rollout are a sliding window over the frames:
    the first recorded state is the stack handed to play_game, every next
    recorded state is the previous one without its oldest frame and with one
    new frame appended, and, for a non-empty initial stack, every recorded
    state and the last state keep the number of frames of the initial
    stack. *)
Theorem X1_frame_stack_slides :
  forall (C : Collaborators) (fuel : nat) (initial_state : list Screen)
         (w : World) history last_state (w' : World),
    initial_state <> [] ->
    play_game fuel initial_state w = Ok (history, last_state) w' ->
    (forall h, nth_error history 0 = Some h -> h_state h = initial_state)
    /\ (forall i h h',
          nth_error history i = Some h ->
          nth_error history (S i) = Some h' ->
          exists scr, h_state h' = tl (h_state h) ++ [scr])
    /\ (forall h, In h history ->
                  length (h_state h) = length initial_state)
    /\ (forall s, last_state = Some s -> length s = length initial_state).
Proof.
  intros C fuel initial_state w history last_state w' Hne H.
  apply play_game_records in H.
  destruct H as (acts & next & _ & _ & Hs & Hl & _).
  destruct (sliding_nth _ _ _ Hs) as [H0 HS].
  destruct (sliding_length _ _ _ Hne Hs) as [HF HN].
  split.
  { intros h Hh. apply H0. rewrite nth_error_map, Hh. reflexivity. }
  split.
  { intros i h h' Hi Hi'.
    apply (HS i); rewrite nth_error_map; [rewrite Hi|rewrite Hi'];
      reflexivity. }
  split.
  { intros h Hin. rewrite Forall_forall in HF. apply HF.
    apply in_map. exact Hin. }
  intros s Hs'. rewrite (Hl s Hs'). exact HN.
Qed.

(** X2.  A rollout costs exactly skip_num environment actions per recorded
    step and nothing else is done to the collaborators, and the i-th recorded
    reward (counting from 1) lies within skip_num * i of 0, because every
    intermediate reward enters clamped to [-1, 1]. *)
Theorem X2_rollout_cost_and_reward_range :
  forall (C : Collaborators) (fuel : nat) (initial_state : list Screen)
         (w : World) history last_state (w' : World),
    play_game fuel initial_state w = Ok (history, last_state) w' ->
    (exists acts,
        trace w' = trace w ++ EvPlayGame :: map EvAct acts
        /\ length acts = (skip_num * length history)%nat)
    /\ (forall i h,
          nth_error history i = Some h ->
          (- (inject_Z (Z.of_nat (skip_num * S i))) <= h_reward h)%Q
          /\ (h_reward h <= inject_Z (Z.of_nat (skip_num * S i)))%Q).
Proof.
  intros C fuel initial_state w history last_state w' H.
  apply play_game_records in H.
  destruct H as (acts & next & T & L & _ & _ & Hr).
  split; [exists acts; split; assumption|].
  intros i h Hi.
  assert (Hb : (0 <= inject_Z (Z.of_nat skip_num))%Q)
    by (unfold skip_num; vm_compute; discriminate).
  destruct (reward_steps_bound _ _ Hb (0 # 1)%Q i (h_reward h) Hr) as [L1 U1].
  { rewrite nth_error_map, Hi. reflexivity. }
  rewrite Nat2Z.inj_mul, inject_Z_mult. split; Lqa.lra.
Qed.

Section RolloutWitness.

#[local] Existing Instance Toy.end_after_8.

Lemma X1_frame_stack_slides_witness :
  ([0; 0]%nat <> []
   /\ play_game 20 [0; 0]%nat (Toy.world (Some 8%nat))
      = Ok (Toy.history8, Toy.last_state8) Toy.world8)
  /\ (forall h, nth_error Toy.history8 0 = Some h -> h_state h = [0; 0]%nat)
  /\ (forall i h h',
        nth_error Toy.history8 i = Some h ->
        nth_error Toy.history8 (S i) = Some h' ->
        exists scr, h_state h' = tl (h_state h) ++ [scr])
  /\ (forall h, In h Toy.history8 ->
                length (h_state h) = length [0; 0]%nat)
  /\ (forall s, Toy.last_state8 = Some s -> length s = length [0; 0]%nat).
Proof.
  assert (H1 : [0; 0]%nat <> []) by discriminate.
  assert (H2 : play_game 20 [0; 0]%nat (Toy.world (Some 8%nat))
               = Ok (Toy.history8, Toy.last_state8) Toy.world8)
    by (vm_compute; reflexivity).
  split; [split; assumption|].
  exact (X1_frame_stack_slides Toy.end_after_8 20 [0; 0]%nat
           (Toy.world (Some 8%nat)) Toy.history8 Toy.last_state8 Toy.world8
           H1 H2).
Defined.

Lemma X2_rollout_cost_and_reward_range_witness :
  play_game 20 [0; 0]%nat (Toy.world (Some 8%nat))
  = Ok (Toy.history8, Toy.last_state8) Toy.world8
  /\ (exists acts,
        trace Toy.world8
        = trace (Toy.world (Some 8%nat)) ++ EvPlayGame :: map EvAct acts
        /\ length acts = (skip_num * length Toy.history8)%nat)
  /\ (forall i h,
        nth_error Toy.history8 i = Some h ->
        (- (inject_Z (Z.of_nat (skip_num * S i))) <= h_reward h)%Q
        /\ (h_reward h <= inject_Z (Z.of_nat (skip_num * S i)))%Q).
Proof.
  assert (H : play_game 20 [0; 0]%nat (Toy.world (Some 8%nat))
              = Ok (Toy.history8, Toy.last_state8) Toy.world8)
    by (vm_compute; reflexivity).
  split; [exact H|].
  exact (X2_rollout_cost_and_reward_range Toy.end_after_8 20 [0; 0]%nat
           (Toy.world (Some 8%nat)) Toy.history8 Toy.last_state8 Toy.world8
           H).
Defined.

End RolloutWitness.

(** ** Whole iterations and the whole run *)

Section WholeRun.

Context {C : Collaborators}.

Lemma before_warmup_thread (w : World) :
  stop (self (before_warmup w)) = stop (self w)
  /\ local_weights (self (before_warmup w))
     = map fst (combine (shared_weights (shared_network w))
                        (local_weights (self w))).
Proof. split; reflexivity. Qed.

Lemma after_update_thread (b : Batches) (w : World) :
  stop (self (after_update b w)) = stop (self w)
  /\ t_start (self (after_update b w)) = t_start (self w)
  /\ t (self (after_update b w)) = t (self w)
  /\ local_weights (self (after_update b w)) = local_weights (self w).
Proof.
  destruct b as [[sb ab] rb].
  destruct sb; [repeat split|]. destruct ab; [repeat split|].
  destruct rb; repeat split.
Qed.

(* zip keeps the first list when the second is as long *)
Lemma map_fst_combine {A B : Type} (l : list A) :
  forall (l' : list B), length l = length l' -> map fst (combine l l') = l.
Proof.
  induction l as [|x l IH]; intros [|y l'] H; simpl in *;
    try reflexivity; try discriminate.
  f_equal. apply IH. lia.
Qed.

Lemma filter_is_act_acts (acts : list action) :
  filter is_act (map EvAct acts) = map EvAct acts.
Proof. induction acts; simpl; congruence. Qed.

(** What a completed iteration does to the worker and to the trace. *)
Lemma iteration_facts (fuel : nat) (w w' : World) :
  run_iteration fuel w = Ok tt w' ->
  exists (history : list Snapshot) warm rollout sb ab rb g,
    stop (self w') = stop (self w)
    /\ t_start (self w') = t (self w)
    /\ t (self w') = t (self w) + Z.of_nat (length history)
    /\ (length history <= 10)%nat
    /\ local_weights (self w')
       = map fst (combine (shared_weights (shared_network w))
                          (local_weights (self w)))
    /\ trace w' = trace w
                  ++ [EvResetGradients; EvSync; EvGetInitialState]
                  ++ map EvAct warm ++ [EvEnvReset; EvPlayGame]
                  ++ map EvAct rollout
                  ++ [EvAccumulate sb ab rb; EvApply g]
    /\ length warm = (num_channels * skip_num)%nat
    /\ length rollout = (skip_num * length history)%nat
    /\ shared_network w' = apply_gradients g (shared_network w).
Proof.
  intros H.
  destruct (run_iteration_trace fuel w w' H)
    as (warm0 & roll0 & sb0 & ab0 & rb0 & _ & _ & S).
  apply run_iteration_inv in H.
  destruct H as (initial_state & w1 & history & last_state & w2
                 & [[sb ab] rb] & E1 & E2 & E3 & Hfed & ->).
  destruct (before_warmup_facts w) as (T0 & S0 & K0 & B0 & G0).
  destruct (before_warmup_thread w) as (P0 & W0).
  destruct (after_update_thread (sb, ab, rb) w2) as (P3 & B3 & K3 & W3).
  destruct (after_update_facts sb ab rb w2 Hfed) as (T3 & _ & G3 & _).
  rewrite G3 in S.
  pose proof E1 as E1'. apply get_initial_state_frame in E1'.
  destruct E1' as (warm & (T1 & S1 & K1 & B1 & P1 & W1 & G1) & _ & L1).
  pose proof E2 as E2'. apply play_game_frame in E2'.
  destruct E2' as (acts & (_ & _ & K2 & B2 & P2 & W2 & _) & _ & _ & _ & Hb).
  apply play_game_records in E2.
  destruct E2 as (rollout & next & T2 & L2 & _).
  cbn [trace log self shared_network environment before_rollout exec
       environment_reset modify set_environment]
    in T1, K1, B1, P1, W1, T2, K2, B2, P2, W2, Hb.
  exists history, warm, rollout, sb, ab, rb.
  eexists.
  split; [congruence|]. split; [congruence|]. split; [lia|].
  split; [unfold t_max in Hb; lia|]. split; [congruence|].
  split.
  { rewrite T3, T2, T1, T0. rewrite <- !app_assoc. reflexivity. }
  split; [exact L1|]. split; [exact L2|]. exact S.
Qed.


End WholeRun.

(** X3.  In a completed iteration of a worker whose local network has as
    many variables as the shared network, the local replica is, from the
    synchronization on and still at the end of the iteration, the shared
    parameter vector as it was when the iteration started: the rollout and
    the gradients use the parameters from before this iteration's apply, and
    the apply is the only change made to the shared store.  The iteration
    does not touch the stop flag. *)
Theorem X3_iteration_replica_is_pre_apply :
  forall (C : Collaborators) (fuel : nat) (w w' : World),
    length (shared_weights (shared_network w))
    = length (local_weights (self w)) ->
    run_iteration fuel w = Ok tt w' ->
    local_weights (self w') = shared_weights (shared_network w)
    /\ (exists g, shared_network w' = apply_gradients g (shared_network w))
    /\ stop (self w') = stop (self w).
Proof.
  intros C fuel w w' Hl H.
  destruct (iteration_facts fuel w w' H)
    as (history & warm & rollout & sb & ab & rb & g
        & P & _ & _ & _ & W & _ & _ & _ & S).
  split; [rewrite W; apply map_fst_combine; exact Hl|].
  split; [exists g; exact S|exact P].
Qed.


(** X5.  A completed iteration records n <= 10 steps, advances the local
    counter t by n, leaves t_start at the value t had when the iteration
    started, and acts on the environment exactly
    skip_num * (num_channels + n) times: skip_num actions for every warm-up
    frame and for every recorded step. *)
Theorem X5_iteration_environment_actions :
  forall (C : Collaborators) (fuel : nat) (w w' : World),
    run_iteration fuel w = Ok tt w' ->
    exists (n : nat) new,
      (n <= 10)%nat
      /\ t (self w') = t (self w) + Z.of_nat n
      /\ t_start (self w') = t (self w)
      /\ trace w' = trace w ++ new
      /\ length (filter is_act new) = (skip_num * (num_channels + n))%nat.
Proof.
  intros C fuel w w' H.
  destruct (iteration_facts fuel w w' H)
    as (history & warm & rollout & sb & ab & rb & g
        & _ & B & K & Hle & _ & T & L1 & L2 & _).
  exists (length history). eexists.
  split; [exact Hle|]. split; [exact K|]. split; [exact B|].
  split; [exact T|].
  cbn [app filter is_act].
  rewrite filter_app, filter_is_act_acts. cbn [app filter is_act].
  rewrite filter_app, filter_is_act_acts. cbn [app filter is_act].
  rewrite app_nil_r, length_app, !length_map, L1, L2. lia.
Qed.

Section RunWitness.

#[local] Existing Instance Toy.end_after_8.

Lemma X3_iteration_replica_is_pre_apply_witness :
  (length (shared_weights (shared_network (Toy.world (Some 8%nat))))
   = length (local_weights (self (Toy.world (Some 8%nat))))
   /\ run_iteration 20 (Toy.world (Some 8%nat)) = Ok tt Toy.after_iteration8)
  /\ local_weights (self Toy.after_iteration8)
     = shared_weights (shared_network (Toy.world (Some 8%nat)))
  /\ (exists g, shared_network Toy.after_iteration8
                = apply_gradients g (shared_network (Toy.world (Some 8%nat))))
  /\ stop (self Toy.after_iteration8) = stop (self (Toy.world (Some 8%nat))).
Proof.
  assert (H1 : length (shared_weights
                         (shared_network (Toy.world (Some 8%nat))))
               = length (local_weights (self (Toy.world (Some 8%nat)))))
    by reflexivity.
  assert (H2 : run_iteration 20 (Toy.world (Some 8%nat))
               = Ok tt Toy.after_iteration8)
    by (vm_compute; reflexivity).
  split; [split; assumption|].
  exact (X3_iteration_replica_is_pre_apply Toy.end_after_8 20
           (Toy.world (Some 8%nat)) Toy.after_iteration8 H1 H2).
Defined.


Lemma X5_iteration_environment_actions_witness :
  run_iteration 20 (Toy.world (Some 8%nat)) = Ok tt Toy.after_iteration8
  /\ exists (n : nat) new,
       (n <= 10)%nat
       /\ t (self Toy.after_iteration8)
          = t (self (Toy.world (Some 8%nat))) + Z.of_nat n
       /\ t_start (self Toy.after_iteration8)
          = t (self (Toy.world (Some 8%nat)))
       /\ trace Toy.after_iteration8
          = trace (Toy.world (Some 8%nat)) ++ new
       /\ length (filter is_act new) = (skip_num * (num_channels + n))%nat.
Proof.
  assert (H : run_iteration 20 (Toy.world (Some 8%nat))
              = Ok tt Toy.after_iteration8)
    by (vm_compute; reflexivity).
  split; [exact H|].
  exact (X5_iteration_environment_actions Toy.end_after_8 20
           (Toy.world (Some 8%nat)) Toy.after_iteration8 H).
Defined.

End RunWitness.

(** ** Edge cases of the two inner loops *)

Section LoopEdges.

Context {C : Collaborators}.

(* once the list is as long as num_channels, the warm-up loop cannot hit
   its exit test *)
Lemma get_initial_state_loop_diverges (fuel : nat) (av : list action) :
  forall (init : list Screen) (w : World),
    (num_channels <= length init)%nat ->
    get_initial_state_loop fuel av init w = OutOfFuel.
Proof.
  induction fuel as [|fuel IH]; intros init w H; [reflexivity|].
  cbn [get_initial_state_loop]. unfold bind at 1.
  destruct (random_acts_frame skip_num av None w)
    as (ns & w1 & acts & E1 & F1 & L1 & N1).
  rewrite E1.
  destruct ns as [scr|]; [|specialize (N1 eq_refl); discriminate N1].
  unfold bind at 1. simpl lift_option. unfold ret at 1.
  destruct (py_is (length (init ++ [scr])) num_channels) eqn:E.
  - apply py_is_true in E. rewrite length_app in E. simpl in E. lia.
  - apply IH. rewrite length_app. simpl. lia.
Qed.

(* beyond the horizon the counter test of the rollout loop stays true *)
Lemma play_game_loop_diverges (fuel : nat) (av : list action) :
  (forall e, env_is_end_state e = false) ->
  forall history ns reward (w : World),
    t_max < t (self w) - t_start (self w) ->
    play_game_loop fuel av history ns reward w = OutOfFuel.
Proof.
  intros Hend. induction fuel as [|fuel IH]; intros history ns reward w H;
    [reflexivity|].
  cbn [play_game_loop].
  unfold bind at 1. unfold is_end_state at 1.
  unfold bind at 1. unfold get at 1.
  rewrite Hend. cbn [Bool.eqb negb andb].
  destruct (Z.eqb_spec (t (self w) - t_start (self w)) t_max) as [Et|Et];
    [lia|]. cbn [negb].
  unfold bind at 1. unfold run_pi at 1. unfold bind at 1.
  destruct (select_action_frame av (net_pi (local_weights (self w)) ns) w)
    as (w1 & E1 & F1 & V1).
  rewrite E1. unfold bind at 1.
  destruct (act_repeat_frame skip_num
              (fst (random_choice_p av (net_pi (local_weights (self w)) ns)
                      (rng w)))
              (reward + (0 # 1))%Q None w1)
    as (rw & nscr & w2 & E2 & F2 & N2).
  rewrite E2.
  destruct nscr as [scr|]; [|specialize (N2 eq_refl); discriminate N2].
  unfold bind at 1. simpl lift_option. unfold ret at 1.
  unfold bind at 1. unfold modify at 1.
  apply IH.
  pose proof (frame_trans _ _ _ _ _ _ _ F1 F2) as F12.
  pose proof (frame_trans _ _ _ _ _ _ _ F12 (tick_frame w2)) as F13.
  destruct F13 as (_ & _ & K1 & B1 & _). lia.
Qed.

End LoopEdges.

(** X6.  With a network input of zero channels get_initial_state never
    returns: the list is tested against num_channels only after a frame was
    appended, so its length is never 0, and whatever the fuel the loop is
    still running (and acting on the environment) when the fuel ends. *)
Theorem X6_warm_up_needs_a_channel :
  forall (C : Collaborators) (fuel : nat) (w : World),
    num_channels = 0%nat ->
    get_initial_state fuel w = OutOfFuel.
Proof.
  intros C fuel w H. unfold get_initial_state.
  cbv [bind modify available_actions].
  apply get_initial_state_loop_diverges. simpl. lia.
Qed.

Lemma X6_warm_up_needs_a_channel_witness :
  @num_channels Toy.no_channels = 0%nat
  /\ get_initial_state (C := Toy.no_channels) 50
       (@mkWorld Toy.no_channels (init [] 0 Device.default)
          (@mkShared Toy.no_channels [] tt 0) O tt [])
     = OutOfFuel.
Proof.
  split; [reflexivity|].
  exact (X6_warm_up_needs_a_channel Toy.no_channels 50 _ eq_refl).
Defined.

(** X7.  The rollout loop tests t - t_start != t_max, not <: entered with
    t - t_start already above t_max in an environment that never reaches an
    end state, play_game never returns, whatever the fuel. *)
Theorem X7_rollout_beyond_horizon :
  forall (C : Collaborators) (fuel : nat) (initial_state : list Screen)
         (w : World),
    (forall e, env_is_end_state e = false) ->
    t_max < t (self w) - t_start (self w) ->
    play_game fuel initial_state w = OutOfFuel.
Proof.
  intros C fuel initial_state w Hend H. unfold play_game.
  cbv [bind modify available_actions].
  rewrite play_game_loop_diverges; [reflexivity|exact Hend|exact H].
Qed.

Lemma X7_rollout_beyond_horizon_witness :
  ((forall e, @env_is_end_state Toy.never_ends e = false)
   /\ t_max < t (self Toy.world_beyond_horizon)
              - t_start (self Toy.world_beyond_horizon))
  /\ play_game (C := Toy.never_ends) 50 [0; 0]%nat Toy.world_beyond_horizon
     = OutOfFuel.
Proof.
  assert (H1 : forall e, @env_is_end_state Toy.never_ends e = false)
    by (intros e; reflexivity).
  assert (H2 : t_max < t (self Toy.world_beyond_horizon)
                       - t_start (self Toy.world_beyond_horizon))
    by (vm_compute; reflexivity).
  split; [split; assumption|].
  exact (X7_rollout_beyond_horizon Toy.never_ends 50 [0; 0]%nat
           Toy.world_beyond_horizon H1 H2).
Defined.

(** X8.  extract_history encodes the action of a record as a one-hot vector
    over the network's action outputs: for an action below actor_outputs the
    vector has actor_outputs entries, entry j is 1 exactly for j = action and
    0 otherwise, so the action can be read back from it, and state and
    reward are passed through; for an action that is not below
    actor_outputs the indexing fails. *)
Theorem X8_extract_history_one_hot :
  forall (C : Collaborators) (h : Snapshot),
    ((h_action h < actor_outputs)%nat ->
     exists v,
       extract_history h = Some (h_state h, v, h_reward h)
       /\ length v = actor_outputs
       /\ (forall j, nth j v (0 # 1)%Q = (1 # 1)%Q <-> j = h_action h)
       /\ (forall j, j <> h_action h -> nth j v (0 # 1)%Q = (0 # 1)%Q))
    /\ ((actor_outputs <= h_action h)%nat -> extract_history h = None).
Proof.
  intros C h. split.
  - intros H. unfold extract_history. rewrite (one_hot_some _ _ H).
    eexists. split; [reflexivity|]. split.
    { rewrite length_app. cbn [length]. rewrite !repeat_length. lia. }
    split.
    + intros j. rewrite nth_one_hot.
      destruct (Nat.eqb_spec j (h_action h)) as [E|E].
      * split; auto.
      * split; [discriminate|contradiction].
    + intros j Hj. rewrite nth_one_hot.
      destruct (Nat.eqb_spec j (h_action h)); [contradiction|reflexivity].
  - intros H. unfold extract_history. rewrite (one_hot_none _ _ H).
    reflexivity.
Qed.

(** X9.  When t - t_start is the length of the history and every recorded
    action is below actor_outputs, the return computation succeeds, leaves
    the world as it is, and yields three batches of one row per record, in
    reverse time order: the states are the recorded states reversed, every
    action row has actor_outputs entries and every return row has one
    entry (the shapes [None, actions] and [None, 1] of the placeholders). *)
Theorem X9_batch_shapes :
  forall (C : Collaborators) (history : list Snapshot)
         (last_state : option State) (w : World),
    Forall (fun h => (h_action h < actor_outputs)%nat) history ->
    t (self w) - t_start (self w) = Z.of_nat (length history) ->
    exists states_batch action_batch reward_batch,
      return_computation history last_state w
      = Ok (states_batch, action_batch, reward_batch) w
      /\ states_batch = rev (map h_state history)
      /\ length action_batch = length history
      /\ length reward_batch = length history
      /\ Forall (fun row => length row = actor_outputs) action_batch
      /\ Forall (fun row => length row = 1%nat) reward_batch.
Proof.
  intros C history last_state w Hv Ht.
  eexists; eexists; eexists.
  split; [apply return_computation_spec; assumption|].
  split; [apply map_rev|].
  split; [rewrite length_map, length_rev; reflexivity|].
  split.
  { rewrite length_map.
    assert (Hl : forall (l : list Q) r, length (running l r) = length l).
    { induction l as [|x l IH]; intros r; simpl; [reflexivity|].
      rewrite IH. reflexivity. }
    rewrite Hl, length_map, length_rev. reflexivity. }
  split.
  - rewrite Forall_map. apply Forall_rev.
    eapply Forall_impl; [|exact Hv].
    intros h Hh. cbv beta in Hh.
    unfold action_vector. rewrite (one_hot_some _ _ Hh).
    rewrite length_app. cbn [length]. rewrite !repeat_length. lia.
  - rewrite Forall_map. apply Forall_forall. intros x _. reflexivity.
Qed.

(** X10.  The return fed for step i depends only on the rewards from step i
    on and on the seed: in time order the i-th return is
    r_i + gamma * (r_(i+1) + gamma * (... + gamma * r0)), where r0 is 0 after
    an end state and the value estimate of the last state otherwise. *)
Theorem X10_return_is_discounted_sum :
  forall (C : Collaborators) (history : list Snapshot)
         (last_state : option State) (w : World),
    Forall (fun h => (h_action h < actor_outputs)%nat) history ->
    t (self w) - t_start (self w) = Z.of_nat (length history) ->
    exists states_batch action_batch reward_batch,
      return_computation history last_state w
      = Ok (states_batch, action_batch, reward_batch) w
      /\ forall (i : nat) (h : Snapshot),
           nth_error history i = Some h ->
           nth_error (rev reward_batch) i
           = Some [discounted_sum
                     (skipn i (map h_reward history))
                     match last_state with
                     | None => (0 # 1)%Q
                     | Some s => net_value (local_weights (self w)) s
                     end].
Proof.
  intros C history last_state w Hv Ht.
  eexists; eexists; eexists.
  split; [apply return_computation_spec; assumption|].
  intros i h Hi.
  rewrite (map_rev h_reward), <- map_rev.
  rewrite running_rev, nth_error_map.
  rewrite (discounted_skipn _ _ i (h_reward h)); [reflexivity|].
  rewrite nth_error_map, Hi. reflexivity.
Qed.

(** X11.  When t - t_start is the length of the history and some recorded
    action is not below actor_outputs (the environment offers an action the
    network has no output for), the return computation raises
    IndexError. *)
Theorem X11_unknown_action_raises :
  forall (C : Collaborators) (history : list Snapshot)
         (last_state : option State) (w : World),
    Exists (fun h => (actor_outputs <= h_action h)%nat) history ->
    t (self w) - t_start (self w) = Z.of_nat (length history) ->
    return_computation history last_state w = Raise IndexError.
Proof.
  intros C history last_state w Hex Ht.
  unfold return_computation.
  assert (Hb : exists r, bootstrap last_state w = Ok r w)
    by (destruct last_state; eexists; reflexivity).
  destruct Hb as (r & Hb).
  unfold bind at 1. rewrite Hb. unfold bind at 1. unfold get at 1.
  replace (t (self w) - 1 - t_start (self w))
    with (Z.of_nat (length history) - 1) by lia.
  rewrite returns_loop_invalid; [reflexivity|lia|].
  rewrite firstn_all. exact Hex.
Qed.

Section BatchWitness.

#[local] Existing Instance Toy.end_after_8.

Lemma X9_batch_shapes_witness :
  (Forall (fun h => (h_action h < actor_outputs)%nat) Toy.history8
   /\ t (self Toy.world8) - t_start (self Toy.world8)
      = Z.of_nat (length Toy.history8))
  /\ exists states_batch action_batch reward_batch,
       return_computation Toy.history8 Toy.last_state8 Toy.world8
       = Ok (states_batch, action_batch, reward_batch) Toy.world8
       /\ states_batch = rev (map h_state Toy.history8)
       /\ length action_batch = length Toy.history8
       /\ length reward_batch = length Toy.history8
       /\ Forall (fun row => length row = actor_outputs) action_batch
       /\ Forall (fun row => length row = 1%nat) reward_batch.
Proof.
  assert (H1 : Forall (fun h => (h_action h < actor_outputs)%nat)
                      Toy.history8) by (repeat constructor).
  assert (H2 : t (self Toy.world8) - t_start (self Toy.world8)
               = Z.of_nat (length Toy.history8)) by reflexivity.
  split; [split; assumption|].
  exact (X9_batch_shapes Toy.end_after_8 Toy.history8 Toy.last_state8
           Toy.world8 H1 H2).
Defined.

Lemma X10_return_is_discounted_sum_witness :
  (Forall (fun h => (h_action h < actor_outputs)%nat) Toy.history8
   /\ t (self Toy.world8) - t_start (self Toy.world8)
      = Z.of_nat (length Toy.history8))
  /\ exists states_batch action_batch reward_batch,
       return_computation Toy.history8 Toy.last_state8 Toy.world8
       = Ok (states_batch, action_batch, reward_batch) Toy.world8
       /\ forall (i : nat) (h : Snapshot),
            nth_error Toy.history8 i = Some h ->
            nth_error (rev reward_batch) i
            = Some [discounted_sum
                      (skipn i (map h_reward Toy.history8))
                      match Toy.last_state8 with
                      | None => (0 # 1)%Q
                      | Some s => net_value (local_weights (self Toy.world8)) s
                      end].
Proof.
  assert (H1 : Forall (fun h => (h_action h < actor_outputs)%nat)
                      Toy.history8) by (repeat constructor).
  assert (H2 : t (self Toy.world8) - t_start (self Toy.world8)
               = Z.of_nat (length Toy.history8)) by reflexivity.
  split; [split; assumption|].
  exact (X10_return_is_discounted_sum Toy.end_after_8 Toy.history8
           Toy.last_state8 Toy.world8 H1 H2).
Defined.

Lemma X11_unknown_action_raises_witness :
  (Exists (fun h => (actor_outputs <= h_action h)%nat)
          Toy.history_unknown_action
   /\ t (self Toy.world_after_one_step)
      - t_start (self Toy.world_after_one_step)
      = Z.of_nat (length Toy.history_unknown_action))
  /\ return_computation Toy.history_unknown_action None
       Toy.world_after_one_step
     = Raise IndexError.
Proof.
  assert (H1 : Exists (fun h => (actor_outputs <= h_action h)%nat)
                      Toy.history_unknown_action)
    by (constructor; simpl; lia).
  assert (H2 : t (self Toy.world_after_one_step)
               - t_start (self Toy.world_after_one_step)
               = Z.of_nat (length Toy.history_unknown_action))
    by reflexivity.
  split; [split; assumption|].
  exact (X11_unknown_action_raises Toy.end_after_8
           Toy.history_unknown_action None Toy.world_after_one_step H1 H2).
Defined.

End BatchWitness.

(** ** The accumulator over an iteration *)

Section Accumulator.

Context {C : Collaborators}.


End Accumulator.


Section AccumulatorWitness.

#[local] Existing Instance Toy.end_after_8.


End AccumulatorWitness.

(** X13.  For any positive number of workers built by the constructor, each
    on a network that it accepts, the handler installed for SIGINT is the
    one of the worker constructed last: an interrupt raises the stop flag of
    that worker and of no other, and the except clause of the join loop
    marks every worker with kill_received and raises no stop flag. *)
Theorem X13_interrupt_reaches_last_worker :
  forall (workers : list (Network * Z)),
    workers <> [] ->
    Forall constructible workers ->
    exists p,
      Coordinator.build workers Coordinator.start = inr p
      /\ length (Coordinator.threads p) = length workers
      /\ Coordinator.sigint p = Some (length workers - 1)%nat
      /\ map stop (Coordinator.threads (Coordinator.deliver_sigint p))
         = repeat false (length workers - 1) ++ [true]
      /\ map stop (Coordinator.threads (Coordinator.keyboard_interrupt p))
         = repeat false (length workers)
      /\ map kill_received
             (Coordinator.threads (Coordinator.keyboard_interrupt p))
         = repeat (Some true) (length workers).
Proof.
  intros workers Hne Hc.
  destruct (build_appends workers Hc Coordinator.start) as (new & B & L & F).
  cbn [Coordinator.threads Coordinator.sigint Coordinator.start app length]
    in B.
  assert (S : match workers with
              | [] => None
              | _ :: _ => Some (0 + length workers - 1)%nat
              end = Some (length workers - 1)%nat)
    by (destruct workers; [contradiction|reflexivity]).
  rewrite S in B.
  exists (Coordinator.mkProcess new (Some (length workers - 1)%nat)).
  split; [exact B|]. split; [exact L|]. split; [reflexivity|].
  split.
  - unfold Coordinator.deliver_sigint.
    cbn [Coordinator.threads Coordinator.sigint].
    destruct (exists_last (l := new)) as (pre & lst & ->).
    { intros ->. destruct workers; [contradiction|discriminate]. }
    rewrite length_app in L. cbn [length] in L.
    replace (length workers - 1)%nat with (length pre) by lia.
    rewrite update_nth_last, map_app.
    apply Forall_app in F. destruct F as [Fpre _].
    rewrite (map_stop_fresh _ Fpre). reflexivity.
  - unfold Coordinator.keyboard_interrupt. cbn [Coordinator.threads].
    rewrite !map_map, <- L. split.
    + rewrite <- (map_stop_fresh _ F). apply map_ext. reflexivity.
    + clear. induction new as [|x l IH]; [reflexivity|].
      cbn [map length repeat]. rewrite IH. reflexivity.
Qed.

(* three workers on the toy network *)
Lemma X13_interrupt_reaches_last_worker_witness :
  ([(Toy.network, 0); (Toy.network, 1); (Toy.network, 2)] <> []
   /\ Forall constructible
             [(Toy.network, 0); (Toy.network, 1); (Toy.network, 2)])
  /\ exists p,
       Coordinator.build
         [(Toy.network, 0); (Toy.network, 1); (Toy.network, 2)]
         Coordinator.start = inr p
       /\ length (Coordinator.threads p)
          = length [(Toy.network, 0); (Toy.network, 1); (Toy.network, 2)]
       /\ Coordinator.sigint p
          = Some (length [(Toy.network, 0); (Toy.network, 1);
                          (Toy.network, 2)] - 1)%nat
       /\ map stop (Coordinator.threads (Coordinator.deliver_sigint p))
          = repeat false
              (length [(Toy.network, 0); (Toy.network, 1);
                       (Toy.network, 2)] - 1) ++ [true]
       /\ map stop (Coordinator.threads (Coordinator.keyboard_interrupt p))
          = repeat false
              (length [(Toy.network, 0); (Toy.network, 1);
                       (Toy.network, 2)])
       /\ map kill_received
              (Coordinator.threads (Coordinator.keyboard_interrupt p))
          = repeat (Some true)
              (length [(Toy.network, 0); (Toy.network, 1);
                       (Toy.network, 2)]).
Proof.
  assert (H1 : [(Toy.network, 0); (Toy.network, 1); (Toy.network, 2)] <> [])
    by discriminate.
  assert (H2 : Forall constructible
                 [(Toy.network, 0); (Toy.network, 1); (Toy.network, 2)]).
  { constructor; [exists (Toy.worker 0); reflexivity|].
    constructor; [exists (Toy.worker 1); reflexivity|].
    constructor; [exists (Toy.worker 2); reflexivity|constructor]. }
  split; [split; assumption|].
  exact (X13_interrupt_reaches_last_worker
           [(Toy.network, 0); (Toy.network, 1); (Toy.network, 2)] H1 H2).
Defined.

(** ** Further properties of the loss graph *)

Section LossMore.

Local Open Scope R_scope.

Lemma reduce_sum_permutation {A : Type} (f : A -> R) (l l' : list A) :
  Permutation l l' ->
  Loss.reduce_sum (map f l) = Loss.reduce_sum (map f l').
Proof.
  induction 1; simpl; Lra.lra.
Qed.

Lemma valid_permutation (n : nat) (l l' : list Loss.Row) :
  Permutation l l' -> Forall (valid_row n) l -> Forall (valid_row n) l'.
Proof.
  intros H Hv. rewrite Forall_forall in *. intros x Hx.
  apply Hv. eapply Permutation_in; [apply Permutation_sym; exact H|exact Hx].
Qed.

(* a non-negative entry is at most the sum of a non-negative vector *)
Lemma entry_le_sum (l : list R) :
  Forall (fun x => 0 <= x) l ->
  0 <= Loss.reduce_sum l /\ Forall (fun x => x <= Loss.reduce_sum l) l.
Proof.
  induction 1 as [|x l Hx Hl (IH1 & IH2)]; simpl.
  - split; [Lra.lra|constructor].
  - split; [Lra.lra|]. constructor; [Lra.lra|].
    eapply Forall_impl; [|exact IH2]. intros y Hy. simpl in Hy. Lra.lra.
Qed.

Lemma guarded_term_le (x : R) :
  0 <= x -> x <= 1 -> x * ln (x + Loss.eps) <= x * ln (1 + Loss.eps).
Proof.
  intros H0 H1. apply Rmult_le_compat_l; [exact H0|].
  pose proof eps_pos as He.
  destruct (Rle_lt_or_eq_dec x 1 H1) as [Hlt | Heq].
  - left. apply ln_increasing; Lra.lra.
  - rewrite Heq. Lra.lra.
Qed.

Lemma guarded_sum_le (l : list R) :
  Forall (fun x => 0 <= x /\ x <= 1) l ->
  Loss.reduce_sum (map (fun x => x * ln (x + Loss.eps)) l)
  <= ln (1 + Loss.eps) * Loss.reduce_sum l.
Proof.
  induction 1 as [|x l (H0 & H1) Hl IH]; simpl; [Lra.lra|].
  pose proof (guarded_term_le x H0 H1). Lra.lra.
Qed.

Lemma guarded_sum_zeros (k : nat) :
  Loss.reduce_sum (map (fun x => x * ln (x + Loss.eps)) (repeat 0 k)) = 0.
Proof.
  induction k as [|k IH]; simpl; [reflexivity|]. rewrite IH. Lra.lra.
Qed.

End LossMore.

(** X16.  Whatever the other rows of a batch of well-shaped rows are, a row
    that gives its own action the probability 0 makes the loss not finite:
    pi_a_s of that row is 0, and log_pi_a_s takes its logarithm without
    eps. *)
Theorem X16_zero_probability_row_singular :
  forall (n : nat) (rows : list Loss.Row),
    Forall (shaped_row n) rows ->
    Exists (fun r => Loss.prob_of r = 0%R) rows ->
    Loss.pi_a_s (map Loss.probs rows) (map (Loss.action_row n) rows)
    = map Loss.prob_of rows
    /\ Loss.log_pi_a_s (map Loss.probs rows) (map (Loss.action_row n) rows)
       = None
    /\ Loss.loss_of_rows n rows = None.
Proof.
  intros n rows Hs Hex.
  assert (Hp : Loss.pi_a_s (map Loss.probs rows)
                 (map (Loss.action_row n) rows) = map Loss.prob_of rows).
  { apply pi_a_s_shaped. eapply Forall_impl; [|exact Hs].
    intros r (Hl & Ha & _). auto. }
  assert (Hz : Exists (fun r => (Loss.prob_of r <= 0)%R) rows).
  { eapply Exists_impl; [|exact Hex]. intros r Hr. simpl in Hr. Lra.lra. }
  split; [exact Hp|]. split.
  - unfold Loss.log_pi_a_s. rewrite Hp. apply log_col_singular.
    apply Exists_exists. apply Exists_exists in Hz.
    destruct Hz as (r & Hin & Hr). exists (Loss.prob_of r).
    split; [apply in_map; exact Hin|exact Hr].
  - apply loss_of_rows_singular; [|exact Hz].
    eapply Forall_impl; [|exact Hs]. intros r (Hl & Ha & _). auto.
Qed.

(** X17.  The loss does not depend on the order of the rows of the batch:
    feeding a permutation of a batch of valid rows, for instance the batch
    in reverse time order as the return computation builds it, gives the
    same loss. *)
Theorem X17_loss_order_independent :
  forall (n : nat) (rows rows' : list Loss.Row),
    Forall (valid_row n) rows ->
    Permutation rows rows' ->
    Loss.loss_of_rows n rows' = Loss.loss_of_rows n rows
    /\ Loss.loss_of_rows n (rev rows) = Loss.loss_of_rows n rows.
Proof.
  intros n rows rows' Hv Hp.
  assert (Hg : forall l l', Permutation l l' ->
                 Loss.graph_total_loss l = Loss.graph_total_loss l').
  { intros l l' H. unfold Loss.graph_total_loss.
    rewrite (reduce_sum_permutation _ l l' H).
    rewrite (reduce_sum_permutation
               (fun r => Loss.reduce_sum
                           (map (fun x => (x * ln (x + Loss.eps))%R)
                                (Loss.probs r))) l l' H).
    rewrite (reduce_sum_permutation
               (fun r => ((Loss.ret r - Loss.v r)
                          * (Loss.ret r - Loss.v r))%R) l l' H).
    reflexivity. }
  split.
  - rewrite (loss_of_rows_valid n rows Hv).
    rewrite (loss_of_rows_valid n rows' (valid_permutation n _ _ Hp Hv)).
    f_equal. symmetry. apply Hg. exact Hp.
  - rewrite (loss_of_rows_valid n rows Hv).
    rewrite (loss_of_rows_valid n (rev rows)
               (valid_permutation n _ _ (Permutation_rev rows) Hv)).
    f_equal. symmetry. apply Hg. apply Permutation_rev.
Qed.

(** X18.  The per-row tensor that the graph calls entropy,
    sum_a pi(a|s) log(pi(a|s) + eps), is at most log(1 + eps) for every
    probability vector, and a deterministic (one-hot) policy attains this
    bound: the beta term of the loss is largest for deterministic
    policies. *)
Theorem X18_entropy_term_bound :
  (forall (p : list R),
      Forall (fun x => (0 <= x)%R) p ->
      Loss.reduce_sum p = 1%R ->
      exists lp,
        Loss.log_pi [p] = Some [lp]
        /\ Loss.mul_sum_rows [p] [lp] = [Loss.reduce_sum (Loss.mul p lp)]
        /\ (Loss.reduce_sum (Loss.mul p lp) <= ln (1 + Loss.eps))%R)
  /\ (forall (n : nat) (a : action),
        (a < n)%nat ->
        let p := repeat 0%R a ++ 1%R :: repeat 0%R (n - S a) in
        exists lp,
          Loss.log_pi [p] = Some [lp]
          /\ Loss.reduce_sum (Loss.mul p lp) = ln (1 + Loss.eps)).
Proof.
  assert (Hm : forall (f : R -> R) (p : list R),
             Loss.reduce_sum (Loss.mul p (map f p))
             = Loss.reduce_sum (map (fun x => (x * f x)%R) p)).
  { intros f p. induction p as [|x p IH]; simpl; congruence. }
  split.
  - intros p Hp Hsum.
    exists (map (fun x => ln (x + Loss.eps)) p).
    split; [rewrite log_pi_guarded; [reflexivity|repeat constructor; exact Hp]|].
    split; [reflexivity|].
    rewrite Hm.
    destruct (entry_le_sum p Hp) as [_ Hle]. rewrite Hsum in Hle.
    assert (H01 : Forall (fun x => (0 <= x /\ x <= 1)%R) p).
    { rewrite Forall_forall in *. intros x Hx. split; auto. }
    pose proof (guarded_sum_le p H01) as H. rewrite Hsum in H. Lra.lra.
  - intros n a Ha p.
    exists (map (fun x => ln (x + Loss.eps)) p).
    split.
    { rewrite log_pi_guarded; [reflexivity|].
      repeat constructor. subst p. apply Forall_app. split.
      - apply Forall_forall. intros x Hx. apply repeat_spec in Hx. Lra.lra.
      - constructor; [Lra.lra|].
        apply Forall_forall. intros x Hx. apply repeat_spec in Hx. Lra.lra. }
    rewrite Hm. subst p. rewrite map_app. cbn [map].
    assert (Hsplit : forall l1 l2 : list R,
               Loss.reduce_sum (l1 ++ l2)
               = (Loss.reduce_sum l1 + Loss.reduce_sum l2)%R).
    { intros l1 l2. induction l1 as [|x l1 IH]; simpl; [Lra.lra|].
      rewrite IH. Lra.lra. }
    rewrite Hsplit. cbn [Loss.reduce_sum fold_right].
    fold (Loss.reduce_sum
            (map (fun x => (x * ln (x + Loss.eps))%R) (repeat 0%R (n - S a)))).
    rewrite !guarded_sum_zeros. Lra.lra.
Qed.

Lemma sure_row_valid : valid_row 4 sure_row.
Proof.
  unfold valid_row, sure_row, Loss.prob_of. simpl.
  split; [reflexivity|]. split; [lia|].
  split; [repeat constructor; Lra.lra|Lra.lra].
Qed.

Lemma X16_zero_probability_row_singular_witness :
  (Forall (shaped_row 4) [Loss.uniform_row; Loss.zero_prob_row]
   /\ Exists (fun r => Loss.prob_of r = 0%R)
             [Loss.uniform_row; Loss.zero_prob_row])
  /\ Loss.pi_a_s (map Loss.probs [Loss.uniform_row; Loss.zero_prob_row])
       (map (Loss.action_row 4) [Loss.uniform_row; Loss.zero_prob_row])
     = map Loss.prob_of [Loss.uniform_row; Loss.zero_prob_row]
  /\ Loss.log_pi_a_s (map Loss.probs [Loss.uniform_row; Loss.zero_prob_row])
       (map (Loss.action_row 4) [Loss.uniform_row; Loss.zero_prob_row])
     = None
  /\ Loss.loss_of_rows 4 [Loss.uniform_row; Loss.zero_prob_row] = None.
Proof.
  assert (H1 : Forall (shaped_row 4) [Loss.uniform_row; Loss.zero_prob_row]).
  { assert (Hs : forall r, valid_row 4 r -> shaped_row 4 r)
      by (intros r (Hl & Ha & Hp & _); repeat split; assumption).
    constructor; [apply Hs, uniform_row_valid|].
    constructor; [|constructor].
    unfold shaped_row, Loss.zero_prob_row. simpl.
    split; [reflexivity|]. split; [lia|].
    constructor; [Lra.lra|]. constructor; [Lra.lra|].
    constructor; [Lra.lra|]. constructor; [Lra.lra|constructor]. }
  assert (H2 : Exists (fun r => Loss.prob_of r = 0%R)
                      [Loss.uniform_row; Loss.zero_prob_row])
    by (right; left; reflexivity).
  split; [split; assumption|].
  exact (X16_zero_probability_row_singular 4
           [Loss.uniform_row; Loss.zero_prob_row] H1 H2).
Defined.

Lemma X17_loss_order_independent_witness :
  (Forall (valid_row 4) [Loss.uniform_row; sure_row]
   /\ Permutation [Loss.uniform_row; sure_row] [sure_row; Loss.uniform_row])
  /\ Loss.loss_of_rows 4 [sure_row; Loss.uniform_row]
     = Loss.loss_of_rows 4 [Loss.uniform_row; sure_row]
  /\ Loss.loss_of_rows 4 (rev [Loss.uniform_row; sure_row])
     = Loss.loss_of_rows 4 [Loss.uniform_row; sure_row].
Proof.
  assert (H1 : Forall (valid_row 4) [Loss.uniform_row; sure_row])
    by (constructor; [apply uniform_row_valid|];
        constructor; [apply sure_row_valid|constructor]).
  assert (H2 : Permutation [Loss.uniform_row; sure_row]
                           [sure_row; Loss.uniform_row])
    by apply perm_swap.
  split; [split; assumption|].
  exact (X17_loss_order_independent 4 [Loss.uniform_row; sure_row]
           [sure_row; Loss.uniform_row] H1 H2).
Defined.

(** ** The loop listener *)

Section ListenerFacts.

Import Listener.

Lemma loop_listener_some (g : Globals) (c : Call) g' out :
  loop_listener g c = Some (g', out) ->
  g' = mkGlobals (current_time c) (current_step c)
  /\ reported_steps out = (current_step c - previous_step g) * 20
  /\ length (filter is_save out) = (if at_epoch c then 1 else 0)%nat
  /\ length (filter is_test out) = (if at_epoch c then 1 else 0)%nat
  /\ (forall trials epoch,
        In (TestRun trials epoch) out ->
        trials = 10 /\ iteration c = ITERATION_PER_EPOCH * epoch)
  /\ (forall step, In (SaveParameters step) out -> step = step_at_save c).
Proof.
  unfold loop_listener, at_epoch.
  destruct (Qeq_bool _ _); [discriminate|].
  intros H. injection H as <- <-.
  destruct (Z.eqb_spec (iteration c mod ITERATION_PER_EPOCH) 0) as [E|E];
    cbn [app filter is_save is_test length reported_steps In].
  - repeat split; try lia.
    + destruct H as [H|[H|[H|[]]]]; try discriminate. congruence.
    + destruct H as [H|[H|[H|[]]]]; try discriminate.
      injection H as _ <-. unfold ITERATION_PER_EPOCH in *.
      Z.div_mod_to_equations. lia.
    + intros step [H|[H|[H|[]]]]; try discriminate. congruence.
  - repeat split; try lia.
    + destruct H as [H|[]]; discriminate.
    + destruct H as [H|[]]; discriminate.
    + intros step [H|[]]; discriminate.
Qed.

Lemma loop_listener_zero_elapsed (g : Globals) (c : Call) :
  (current_time c == previous_time g)%Q -> loop_listener g c = None.
Proof.
  intros Hc. unfold loop_listener.
  assert (E : Qeq_bool (current_time c - previous_time g) (0 # 1) = true)
    by (apply Qeq_bool_iff; Lqa.lra).
  rewrite E. reflexivity.
Qed.

Lemma reported_steps_app (a b : list output) :
  reported_steps (a ++ b) = reported_steps a + reported_steps b.
Proof.
  induction a as [|[s e r|tr ep|st] a IH]; simpl; lia.
Qed.

End ListenerFacts.

(** X19.  Over any sequence of listener calls that all complete, the steps
    reported add up to 20 times the progress of the global step from the
    previous_step the sequence started with, the module-level variables end
    at the clock and global step of the last call, and a test run and a
    checkpoint are made once for every call whose iteration is a multiple of
    2000, the test run with 10 trials and the epoch iteration / 2000, the
    checkpoint with the global step read for it.  A call made at the very
    time of the previous one raises (division by a zero elapsed time). *)
Theorem X19_listener_reports :
  forall (g g' : Listener.Globals) (calls : list Listener.Call)
         (out : list Listener.output),
    Listener.listen g calls = Some (g', out) ->
    Listener.reported_steps out
    = 20 * (Listener.previous_step g' - Listener.previous_step g)
    /\ g' = match rev calls with
            | [] => g
            | c :: _ =>
                Listener.mkGlobals (Listener.current_time c)
                                   (Listener.current_step c)
            end
    /\ length (filter Listener.is_save out)
       = length (filter Listener.at_epoch calls)
    /\ length (filter Listener.is_test out)
       = length (filter Listener.at_epoch calls)
    /\ (forall trials epoch,
          In (Listener.TestRun trials epoch) out ->
          trials = 10
          /\ exists c, In c calls /\ Listener.iteration c = 2000 * epoch)
    /\ (forall step,
          In (Listener.SaveParameters step) out ->
          exists c, In c calls /\ Listener.at_epoch c = true
                    /\ step = Listener.step_at_save c)
    /\ (forall c,
          (Listener.current_time c == Listener.previous_time g)%Q ->
          Listener.loop_listener g c = None).
Proof.
  intros g g' calls. revert g g'.
  induction calls as [|c rest IH]; intros g g' out H; simpl in H.
  - injection H as <- <-.
    split; [cbn [Listener.reported_steps]; lia|].
    split; [reflexivity|]. split; [reflexivity|].
    split; [reflexivity|]. split; [intros ? ? []|]. split; [intros ? []|].
    apply loop_listener_zero_elapsed.
  - destruct (Listener.loop_listener g c) as [[g1 out1]|] eqn:E1;
      [|discriminate].
    destruct (Listener.listen g1 rest) as [[g2 out2]|] eqn:E2;
      [|discriminate].
    injection H as <- <-.
    destruct (loop_listener_some _ _ _ _ E1) as (G1 & R1 & S1 & T1 & Q1 & P1).
    destruct (IH _ _ _ E2) as (R2 & G2 & S2 & T2 & Q2 & P2 & _).
    split.
    { rewrite reported_steps_app, R1, R2, G1.
      cbn [Listener.previous_step]. lia. }
    split.
    { rewrite G2. simpl rev.
      destruct (rev rest) as [|c' l]; [exact G1|reflexivity]. }
    split.
    { rewrite filter_app, length_app, S1, S2. simpl.
      destruct (Listener.at_epoch c); reflexivity. }
    split.
    { rewrite filter_app, length_app, T1, T2. simpl.
      destruct (Listener.at_epoch c); reflexivity. }
    split.
    { intros trials epoch Hin. apply in_app_or in Hin.
      destruct Hin as [Hin|Hin].
      - destruct (Q1 _ _ Hin) as [Ht Hi]. split; [exact Ht|].
        exists c. split; [left; reflexivity|exact Hi].
      - destruct (Q2 _ _ Hin) as (Ht & c' & Hc' & Hi). split; [exact Ht|].
        exists c'. split; [right; exact Hc'|exact Hi]. }
    split.
    { intros step Hin. apply in_app_or in Hin. destruct Hin as [Hin|Hin].
      - exists c. split; [left; reflexivity|].
        split; [|apply P1; exact Hin].
        destruct (Listener.at_epoch c); [reflexivity|].
        assert (Hf : In (Listener.SaveParameters step)
                        (filter Listener.is_save out1))
          by (apply filter_In; split; [exact Hin|reflexivity]).
        destruct (filter Listener.is_save out1); [contradiction|discriminate].
      - destruct (P2 _ Hin) as (c' & Hc' & He & Hs).
        exists c'. split; [right; exact Hc'|]. split; assumption. }
    apply loop_listener_zero_elapsed.
Qed.

Lemma X19_listener_reports_witness :
  Listener.listen Listener.at_import Listener.three_calls
  = Some (Listener.after_three_calls, Listener.three_calls_output)
  /\ Listener.reported_steps Listener.three_calls_output
     = 20 * (Listener.previous_step Listener.after_three_calls
             - Listener.previous_step Listener.at_import)
  /\ Listener.after_three_calls
     = match rev Listener.three_calls with
       | [] => Listener.at_import
       | c :: _ =>
           Listener.mkGlobals (Listener.current_time c)
                              (Listener.current_step c)
       end
  /\ length (filter Listener.is_save Listener.three_calls_output)
     = length (filter Listener.at_epoch Listener.three_calls)
  /\ length (filter Listener.is_test Listener.three_calls_output)
     = length (filter Listener.at_epoch Listener.three_calls)
  /\ (forall trials epoch,
        In (Listener.TestRun trials epoch) Listener.three_calls_output ->
        trials = 10
        /\ exists c, In c Listener.three_calls
                     /\ Listener.iteration c = 2000 * epoch)
  /\ (forall step,
        In (Listener.SaveParameters step) Listener.three_calls_output ->
        exists c, In c Listener.three_calls /\ Listener.at_epoch c = true
                  /\ step = Listener.step_at_save c)
  /\ (forall c,
        (Listener.current_time c
         == Listener.previous_time Listener.at_import)%Q ->
        Listener.loop_listener Listener.at_import c = None).
Proof.
  assert (H : Listener.listen Listener.at_import Listener.three_calls
              = Some (Listener.after_three_calls,
                      Listener.three_calls_output))
    by (vm_compute; reflexivity).
  split; [exact H|].
  exact (X19_listener_reports Listener.at_import Listener.after_three_calls
           Listener.three_calls Listener.three_calls_output H).
Defined.
